(** * YouTube audio downloader: a shallow embedding of
      [youtube_audio_downloader.py] and the properties of its
      URL classification, filename sanitisation and batch loops.

    Conventions of the embedding:
    - a Python string is the list of its code points, and [str.strip],
      [str.replace], slicing and [re] are given their library meaning;
    - the methods of [YouTubeAudioDownloader] are computations in a
      monad of state and exceptions; the state holds the fields of the
      instance ([output_dir], [ydl_opts]), the world outside, and a log
      of what an observer of the run would see;
    - the extraction library, the file system and the platform are the
      operations of a class [Env]: nothing is assumed of them, and they
      may raise any exception of class [Exception];
    - console output is left out; [time.sleep] is an operation of
      [Env] like the others and may raise (it does for a delay too
      large for the clock); a delay is a finite number, and interrupts
      are not part of the model. *)

From Stdlib Require Import ZArith NArith QArith Lia Ascii String.
From stdpp Require Import base list strings gmap.

Local Open Scope N_scope.

(** ** Python strings

    A Python [str] is a sequence of Unicode code points; a code point is
    a natural number.  [py] reads an ASCII literal of this file as such
    a string. *)

Abbreviation pystr := (list N).

Definition py (s : string) : pystr := N_of_ascii <$> list_ascii_of_string s.

(** [str.isspace] on one code point: the characters [str.strip()]
    removes when it is called without an argument. *)
Definition isspace (c : N) : bool :=
  ((9 <=? c) && (c <=? 13)) || ((28 <=? c) && (c <=? 32))
  || (c =? 0x85) || (c =? 0xA0) || (c =? 0x1680)
  || ((0x2000 <=? c) && (c <=? 0x200A))
  || (c =? 0x2028) || (c =? 0x2029) || (c =? 0x202F)
  || (c =? 0x205F) || (c =? 0x3000).

Fixpoint lstrip (s : pystr) : pystr :=
  match s with
  | [] => []
  | c :: r => if isspace c then lstrip r else s
  end.

Definition rstrip (s : pystr) : pystr := reverse (lstrip (reverse s)).

(** [s.strip()] *)
Definition strip (s : pystr) : pystr := rstrip (lstrip s).

(** [s.startswith(p)] *)
Fixpoint starts_with (p s : pystr) : bool :=
  match p, s with
  | [], _ => true
  | _ :: _, [] => false
  | a :: p', b :: s' => (a =? b) && starts_with p' s'
  end.

(** The left-to-right scan of [str.replace] for a non-empty [old]: at an
    occurrence of [old] emit [new] and skip the occurrence ([skip]
    counts the characters of it still to pass over), elsewhere copy the
    character. *)
Fixpoint replace_scan (old new : pystr) (skip : nat) (s : pystr) : pystr :=
  match s with
  | [] => []
  | c :: r =>
      match skip with
      | S k => replace_scan old new k r
      | O =>
          if starts_with old s
          then new ++ replace_scan old new (length old - 1) r
          else c :: replace_scan old new 0 r
      end
  end.

(** [s.replace(old, new)]; an empty [old] matches before every character
    and at the end. *)
Definition str_replace (old new s : pystr) : pystr :=
  match old with
  | [] => new ++ mjoin ((fun c => c :: new) <$> s)
  | _ :: _ => replace_scan old new 0 s
  end.

(** Python truthiness of a string, and [a or b] on strings. *)
Definition str_truthy (s : pystr) : bool :=
  match s with [] => false | _ :: _ => true end.

Definition str_or (a b : pystr) : pystr := if str_truthy a then a else b.

(** ** [_sanitize_filename] *)

(** [invalid_chars]: the nine characters less-than, greater-than, colon,
    double quote (code point 34), slash, backslash, bar, question mark
    and star, in the order of the source literal. *)
Definition invalid_chars : pystr := py "<>:" ++ [34] ++ py "/\|?*".

Definition _sanitize_filename (filename : pystr) : pystr :=
  let filename :=
    foldl (fun filename char => str_replace [char] (py "_") filename)
          filename invalid_chars in
  let filename := take 100 (strip filename) in
  str_or filename (py "Unknown_Playlist").

(** The base name [download_audio] saves under (lines 172-187):
    [safe_base_name] when an output filename is given and truthy,
    [safe_title] otherwise. *)
Definition output_base_name (title : pystr) (output_filename : option pystr) : pystr :=
  let safe_title := _sanitize_filename title in
  match output_filename with
  | Some name =>
      if str_truthy name then
        let base_name := str_replace (py ".mp3") [] name in
        _sanitize_filename base_name
      else safe_title
  | None => safe_title
  end.


(** ** Regular expressions

    The fragment of Python's [re] syntax that the source uses.  [Void]
    is not part of the surface syntax; it arises when a derivative is
    taken. *)

Inductive regex :=
| Void
| Eps
| Chr (c : N)
| Dot
| Cls (negated : bool) (ranges : list (N * N))
| Cat (r1 r2 : regex)
| Alt (r1 r2 : regex)
| Star (r : regex).

Definition ch (a : ascii) : N := N_of_ascii a.

(** a literal piece of a pattern *)
Definition Lit (s : string) : regex := foldr (fun c r => Cat (Chr c) r) Eps (py s).
(** [r1 r2 ... rn] *)
Definition Seq (rs : list regex) : regex := foldr Cat Eps rs.
(** [r1|r2|...|rn] *)
Definition OneOf (rs : list regex) : regex := foldr Alt Void rs.
(** [r?] *)
Definition Opt (r : regex) : regex := Alt r Eps.
(** [r+] *)
Definition Plus (r : regex) : regex := Cat r (Star r).
(** [r{n}] *)
Fixpoint Rep (n : nat) (r : regex) : regex :=
  match n with
  | O => Eps
  | S k => Cat r (Rep k r)
  end.

(** items of a character class: single characters and ranges *)
Definition chars (s : string) : list (N * N) := (fun c => (c, c)) <$> py s.
Definition range (lo hi : ascii) : list (N * N) := [(ch lo, ch hi)].

Definition in_ranges (c : N) (ranges : list (N * N)) : bool :=
  existsb (fun '(lo, hi) => (lo <=? c) && (c <=? hi)) ranges.

(** whether a one-character pattern accepts [c]; [.] accepts everything
    but the line feed *)
Definition accepts (r : regex) (c : N) : bool :=
  match r with
  | Chr a => a =? c
  | Dot => negb (c =? 10)
  | Cls negated ranges => xorb negated (in_ranges c ranges)
  | _ => false
  end.

(** The words a pattern matches in full. *)
Inductive matches : regex -> pystr -> Prop :=
| m_eps : matches Eps []
| m_chr c : matches (Chr c) [c]
| m_dot c : c <> 10 -> matches Dot [c]
| m_cls negated ranges c :
    xorb negated (in_ranges c ranges) = true -> matches (Cls negated ranges) [c]
| m_cat r1 r2 s1 s2 :
    matches r1 s1 -> matches r2 s2 -> matches (Cat r1 r2) (s1 ++ s2)
| m_alt_l r1 r2 s : matches r1 s -> matches (Alt r1 r2) s
| m_alt_r r1 r2 s : matches r2 s -> matches (Alt r1 r2) s
| m_star_nil r : matches (Star r) []
| m_star_app r s1 s2 :
    matches r s1 -> matches (Star r) s2 -> matches (Star r) (s1 ++ s2).

(** *** Matching by derivatives *)

Fixpoint nullable (r : regex) : bool :=
  match r with
  | Eps | Star _ => true
  | Cat r1 r2 => nullable r1 && nullable r2
  | Alt r1 r2 => nullable r1 || nullable r2
  | _ => false
  end.

Definition cat (r1 r2 : regex) : regex :=
  match r1, r2 with
  | Void, _ | _, Void => Void
  | Eps, _ => r2
  | _, _ => Cat r1 r2
  end.

Definition alt (r1 r2 : regex) : regex :=
  match r1, r2 with
  | Void, _ => r2
  | _, Void => r1
  | _, _ => Alt r1 r2
  end.

Fixpoint deriv (c : N) (r : regex) : regex :=
  match r with
  | Void | Eps => Void
  | Chr _ | Dot | Cls _ _ => if accepts r c then Eps else Void
  | Cat r1 r2 =>
      if nullable r1
      then alt (cat (deriv c r1) r2) (deriv c r2)
      else cat (deriv c r1) r2
  | Alt r1 r2 => alt (deriv c r1) (deriv c r2)
  | Star r1 => cat (deriv c r1) (Star r1)
  end.

(** [re.compile(r).match(s) is not None]: some prefix of [s] matches. *)
Fixpoint re_match (r : regex) (s : pystr) : bool :=
  nullable r ||
  match s with
  | [] => false
  | c :: t => re_match (deriv c r) t
  end.

(** [re.search(r, s)] as a truth value: a match starts somewhere in [s]. *)
Fixpoint re_search (r : regex) (s : pystr) : bool :=
  re_match r s ||
  match s with
  | [] => false
  | _ :: t => re_search r t
  end.

(** ** URL classification *)

(** [(https?://)?(www\.)?(youtube|youtu|youtube-nocookie)\.(com|be)/]
    [(watch\?v=|embed/|v/|.+\?v=)?([^&=%\?]{11})] *)
Definition youtube_regex : regex :=
  Seq [ Opt (Seq [Lit "http"; Opt (Lit "s"); Lit "://"]);
        Opt (Lit "www.");
        OneOf [Lit "youtube"; Lit "youtu"; Lit "youtube-nocookie"];
        Lit ".";
        OneOf [Lit "com"; Lit "be"];
        Lit "/";
        Opt (OneOf [Lit "watch?v="; Lit "embed/"; Lit "v/";
                    Seq [Plus Dot; Lit "?v="]]);
        Rep 11 (Cls true (chars "&=%?")) ].

Definition is_valid_youtube_url (url : pystr) : bool :=
  re_match youtube_regex url.

(** [[a-zA-Z0-9_-]+] *)
Definition list_id : regex :=
  Plus (Cls false (range "a" "z" ++ range "A" "Z" ++ range "0" "9" ++ chars "_-")).

(** [[&?]list=(...)], [youtube\.com/playlist\?list=(...)],
    [youtube\.com/watch\?.*list=(...)] *)
Definition playlist_patterns : list regex :=
  [ Seq [Cls false (chars "&?"); Lit "list="; list_id];
    Seq [Lit "youtube.com/playlist?list="; list_id];
    Seq [Lit "youtube.com/watch?"; Star Dot; Lit "list="; list_id] ].

Definition is_playlist_url (url : pystr) : bool :=
  existsb (fun pattern => re_search pattern url) playlist_patterns.

(** ** Exceptions, dictionaries and the external collaborators *)

(** The exception classes the source distinguishes; [Exception] stands
    for the base class raised by the source itself and for every other
    subclass.  Asynchronous interrupts are outside the model. *)
Inductive exn :=
| ValueError (msg : pystr)
| DownloadError (msg : pystr)
| FileNotFoundError (msg : pystr)
| Exception (msg : pystr).

(** [str(e)] *)
Definition exn_str (e : exn) : pystr :=
  match e with
  | ValueError msg | DownloadError msg | FileNotFoundError msg
  | Exception msg => msg
  end.

(** Values stored in the option dictionary handed to the extractor. *)
#[warnings="-register-all"] Inductive pyval :=
| VNone
| VBool (b : bool)
| VStr (s : pystr)
| VList (l : list pyval)
| VDict (d : gmap pystr pyval).

(** What the extractor returns for one video in metadata-only mode; a
    key missing from the dictionary is [None] here. *)
Record video_meta := {
  vm_title : option pystr;
  vm_duration : option Z;
  vm_uploader : option pystr;
}.

(** One element of [info['entries']] of a flat playlist extraction.  The
    source reads the identifier by subscript and the other keys with
    [get]: the identifier is present in every entry, the other keys may
    be missing. *)
Record entry := {
  e_id : pystr;
  e_title : option pystr;
  e_duration : option Z;
  e_uploader : option pystr;
}.

(** The flat playlist extraction; an element of the entry list is
    [None] for a private or deleted video. *)
Record playlist_meta := {
  pm_entries : option (list (option entry));
  pm_title : option pystr;
  pm_uploader : option pystr;
}.

(** The world outside the program: the file system, the platform and
    the extraction library.  Every operation may depend on and change
    the state of the world; the properties below hold for every
    behaviour of these operations. *)
Class Env := {
  world : Type;
  path : Type;
  (** [Path(s)], [p / name], [str(p)] *)
  mk_path : pystr -> path;
  joinpath : path -> pystr -> path;
  path_str : path -> pystr;
  (** [str([f.name for f in files])] *)
  names_repr : list path -> pystr;
  (** [shutil.which], [os.path.exists] *)
  which : pystr -> world -> option pystr;
  os_path_exists : pystr -> world -> bool;
  (** [p.mkdir(exist_ok=True)], [p.exists()], [p.glob(pattern)],
      [os.path.getctime(p)] *)
  mkdir : path -> world -> world * (exn + unit);
  path_exists : path -> world -> bool;
  glob : path -> pystr -> world -> list path;
  getctime : path -> world -> Z;
  (** [YoutubeDL(opts).extract_info(url, download=...)] in its three
      uses: one video without download, a flat playlist, and the
      download with conversion *)
  extract_video_info : pystr -> world -> world * (exn + video_meta);
  extract_flat_playlist : pystr -> world -> world * (exn + playlist_meta);
  extract_download : gmap pystr pyval -> pystr -> world -> world * (exn + unit);
  (** [time.sleep(seconds)]: the world may change while the program
      sleeps, and the call may raise (CPython raises [OverflowError]
      for a delay that does not fit its clock) *)
  sleep : Q -> world -> world * (exn + unit);
}.

(** ** The dictionaries the program builds *)

Record video_info := {
  vi_title : pystr;
  vi_duration : Z;
  vi_uploader : pystr;
}.

Record video := {
  v_url : pystr;
  v_title : pystr;
  v_duration : Z;
  v_uploader : pystr;
}.

Record playlist_info := {
  pi_title : pystr;
  pi_uploader : pystr;
  pi_video_count : nat;
  pi_videos : list video;
}.

Inductive status := success | failed.

(** An element of [results]; [item] is the URL in [download_multiple]
    and the video dictionary in [download_playlist]. *)
Record download_result (K : Type) := {
  item : K;
  file : option pystr;
  r_status : status;
  error : option pystr;
}.
Arguments item {K}.
Arguments file {K}.
Arguments r_status {K}.
Arguments error {K}.

Record playlist_report := {
  rp_playlist_info : playlist_info;
  rp_results : list (download_result video);
  rp_successful_downloads : nat;
  rp_total_videos : nat;
  rp_output_directory : pystr;
}.

Definition is_success {K} (r : download_result K) : bool :=
  match r_status r with success => true | failed => false end.

(** ** Program state and the monad of state and exceptions

    Console output is not modelled: [print] is taken to return
    normally and leaves no trace here. *)

Section Program.
Context `{Env}.

(** What the run leaves behind for an observer: the download attempts,
    each with the output directory in force, and the suspensions. *)
Inductive event :=
| EvDownload (dir : path) (url : pystr)
| EvSleep (seconds : Q).

(** The fields of the downloader instance, the world, and the
    observation log. *)
Record state := {
  self_output_dir : path;
  self_ydl_opts : gmap pystr pyval;
  the_world : world;
  log : list event;
}.

Definition set_output_dir (p : path) (s : state) : state :=
  {| self_output_dir := p; self_ydl_opts := self_ydl_opts s;
     the_world := the_world s; log := log s |}.

Definition set_ydl_opts (o : gmap pystr pyval) (s : state) : state :=
  {| self_output_dir := self_output_dir s; self_ydl_opts := o;
     the_world := the_world s; log := log s |}.

Definition set_world (w : world) (s : state) : state :=
  {| self_output_dir := self_output_dir s; self_ydl_opts := self_ydl_opts s;
     the_world := w; log := log s |}.

Definition record_event (e : event) (s : state) : state :=
  {| self_output_dir := self_output_dir s; self_ydl_opts := self_ydl_opts s;
     the_world := the_world s; log := log s ++ [e] |}.

(** A computation over a state [St] that returns a value or raises; the
    state changes made before an exception is raised persist. *)
Definition M (St A : Type) : Type := St -> St * (exn + A).

Definition ret {St A} (a : A) : M St A := fun s => (s, inr a).

Definition bind {St A B} (m : M St A) (k : A -> M St B) : M St B :=
  fun s => match m s with
           | (s', inr a) => k a s'
           | (s', inl e) => (s', inl e)
           end.

Definition raise {St A} (e : exn) : M St A := fun s => (s, inl e).

(** [try: body except Exception as e: handler] *)
Definition try_except {St A} (body : M St A) (handler : exn -> M St A) : M St A :=
  fun s => match body s with
           | (s', inl e) => handler e s'
           | (s', inr a) => (s', inr a)
           end.

Definition gets {St A} (f : St -> A) : M St A := fun s => (s, inr (f s)).
Definition modify {St} (f : St -> St) : M St unit := fun s => (f s, inr tt).

Notation "x <- m ;; k" := (bind m (fun x => k))
  (at level 20, m at level 99, k at level 200, only parsing).
Notation "m ;; k" := (bind m (fun _ => k))
  (at level 100, k at level 200, only parsing).

(** a call into the world that may fail, and a query of it *)
Definition call {A} (f : world -> world * (exn + A)) : M state A :=
  fun s => let '(w, r) := f (the_world s) in (set_world w s, r).

Definition ask {A} (f : world -> A) : M state A :=
  gets (fun s => f (the_world s)).

(** [for i, x in enumerate(l, i)]: an exception leaving the body leaves
    the loop. *)
Fixpoint for_each {St A} (body : nat -> A -> M St unit) (i : nat) (l : list A) : M St unit :=
  match l with
  | [] => ret tt
  | x :: rest => body i x ;; for_each body (S i) rest
  end.

(** Local variables of a method that its exception handlers read live in
    a frame [L] next to the state. *)
Definition lift {L A} (m : M state A) : M (L * state) A :=
  fun '(l, s) => let '(s', r) := m s in ((l, s'), r).

Definition local {L A} (f : L -> A) : M (L * state) A :=
  fun '(l, s) => ((l, s), inr (f l)).

Definition assign {L} (f : L -> L) : M (L * state) unit :=
  fun '(l, s) => ((f l, s), inr tt).

Definition with_frame {L A} (init : L) (m : M (L * state) A) : M state A :=
  fun s => let '((_, s'), r) := m (init, s) in (s', r).

(** [time.sleep(seconds)]: the suspension is entered in the log when
    the call returns; a call that raises leaves no suspension. *)
Definition time_sleep (seconds : Q) : M state unit :=
  call (sleep seconds) ;;
  modify (record_event (EvSleep seconds)).

(** [x > 0] on a number *)
Definition is_positive (x : Q) : bool := (0 <? Qnum x)%Z.

(** [d.get(key, default)] on a key that may be missing *)
Definition get_or {A} (o : option A) (d : A) : A :=
  match o with Some a => a | None => d end.

(** [max(l, key=f)]: the first element with the largest key *)
Definition max_by {A} (f : A -> Z) (x : A) (l : list A) : A :=
  foldl (fun best y => if (f best <? f y)%Z then y else best) x l.

(** ** The downloader *)

Definition outtmpl_of (dir : path) : pyval :=
  VStr (path_str (joinpath dir (py "%(title)s.%(ext)s"))).

Definition common_paths : list pystr :=
  [ py "/usr/local/bin/ffmpeg"; py "/usr/bin/ffmpeg";
    py "/opt/homebrew/bin/ffmpeg"; py "C:\ffmpeg\bin\ffmpeg.exe";
    py "C:\Program Files\ffmpeg\bin\ffmpeg.exe" ].

(** The message of lines 55-59, code point by code point: the three
    characters before each hint are those the source file holds. *)
Definition hint_mark : pystr := [8218; 196; 162].

Definition ffmpeg_not_found : pystr :=
  py "FFmpeg not found. Please install FFmpeg:" ++ [10]
  ++ hint_mark ++ py " macOS: brew install ffmpeg" ++ [10]
  ++ hint_mark ++ py " Ubuntu/Debian: sudo apt install ffmpeg" ++ [10]
  ++ hint_mark ++ py " Windows: Download from https://ffmpeg.org/download.html" ++ [10]
  ++ py "Make sure FFmpeg is in your system PATH.".

(** [__init__]: the state of a fresh instance in world [w], or the
    exception raised. *)
Definition init (output_dir : pystr) (w : world) : exn + state :=
  let dir := mk_path output_dir in
  match mkdir dir w with
  | (w, inl e) => inl e
  | (w, inr _) =>
      let ffmpeg_path :=
        match which (py "ffmpeg") w with
        | Some p => Some p
        | None => head (filter (fun p => os_path_exists p w = true) common_paths)
        end in
      match ffmpeg_path with
      | None => inl (Exception ffmpeg_not_found)
      | Some ffmpeg =>
          inr {| self_output_dir := dir;
                 self_ydl_opts :=
                   <[py "format" := VStr (py "bestaudio/best")]>
                   (<[py "outtmpl" := outtmpl_of dir]>
                   (<[py "noplaylist" := VBool true]>
                   (<[py "postprocessors" :=
                        VList [VDict (<[py "key" := VStr (py "FFmpegExtractAudio")]>
                                      (<[py "preferredcodec" := VStr (py "mp3")]>
                                      (<[py "preferredquality" := VStr (py "192")]> ∅)))]]>
                   (<[py "ffmpeg_location" := VStr ffmpeg]>
                   (<[py "prefer_ffmpeg" := VBool true]> ∅)))));
                 the_world := w;
                 log := [] |}
      end
  end.

Definition get_video_info (url : pystr) : M state video_info :=
  try_except
    (info <- call (extract_video_info url) ;;
     ret {| vi_title := get_or (vm_title info) (py "Unknown");
            vi_duration := get_or (vm_duration info) 0%Z;
            vi_uploader := get_or (vm_uploader info) (py "Unknown") |})
    (fun e => raise (Exception (py "Failed to get video info: " ++ exn_str e))).

(** The loop of [get_playlist_info] over [info['entries']]: an entry
    that is [None] is skipped. *)
Fixpoint collect_videos (videos : list video) (entries : list (option entry)) : list video :=
  match entries with
  | [] => videos
  | None :: rest => collect_videos videos rest
  | Some e :: rest =>
      collect_videos
        (videos ++ [ {| v_url := py "https://www.youtube.com/watch?v=" ++ e_id e;
                        v_title := get_or (e_title e) (py "Unknown Title");
                        v_duration := get_or (e_duration e) 0%Z;
                        v_uploader := get_or (e_uploader e) (py "Unknown") |} ])
        rest
  end.

Definition get_playlist_info (url : pystr) : M state playlist_info :=
  if negb (is_playlist_url url)
  then raise (ValueError (py "URL is not a valid YouTube playlist"))
  else
    try_except
      (info <- call (extract_flat_playlist url) ;;
       match pm_entries info with
       | None => raise (Exception (py "No videos found in playlist"))
       | Some entries =>
           let videos := collect_videos [] entries in
           ret {| pi_title := get_or (pm_title info) (py "Unknown Playlist");
                  pi_uploader := get_or (pm_uploader info) (py "Unknown");
                  pi_video_count := length videos;
                  pi_videos := videos |}
       end)
      (fun e => raise (Exception (py "Failed to get playlist info: " ++ exn_str e))).

(** [download_audio]; its first two steps enter the call in the
    observation log, the rest follows the source. *)
Definition download_audio (url : pystr) (output_filename : option pystr) : M state pystr :=
  output_dir <- gets self_output_dir ;;
  modify (record_event (EvDownload output_dir url)) ;;
  if negb (is_valid_youtube_url url)
  then raise (ValueError (py "Invalid YouTube URL provided"))
  else
    try_except
      (video_info <- get_video_info url ;;
       let name := output_base_name (vi_title video_info) output_filename in
       ydl_opts <- gets self_ydl_opts ;;
       let current_ydl_opts :=
         <[py "outtmpl" := VStr (path_str (joinpath output_dir (name ++ py ".%(ext)s")))]>
           ydl_opts in
       let expected_final_name := name ++ py ".mp3" in
       let current_ydl_opts := <[py "verbose" := VBool false]> current_ydl_opts in
       call (extract_download current_ydl_opts url) ;;
       let final_path := joinpath output_dir expected_final_name in
       found <- ask (path_exists final_path) ;;
       if found then ret (path_str final_path)
       else
         all_files <- ask (glob output_dir (py "*")) ;;
         mp3_files <- ask (glob output_dir (py "*.mp3")) ;;
         match mp3_files with
         | f :: rest =>
             ctime <- ask (fun w p => getctime p w) ;;
             ret (path_str (max_by ctime f rest))
         | [] =>
             raise (Exception (py "No MP3 file found in " ++ path_str output_dir
                               ++ py ". Files present: " ++ names_repr all_files))
         end)
      (fun e =>
         match e with
         | DownloadError _ =>
             raise (Exception (py "yt-dlp download error: " ++ exn_str e))
         | FileNotFoundError _ =>
             raise (Exception (py "File system error (check FFmpeg installation): "
                               ++ exn_str e))
         | _ => raise (Exception (py "Download failed: " ++ exn_str e))
         end).

(** The body of the loop of [download_multiple] (lines 234-240); the
    frame holds [results]. *)
Definition multiple_item (i : nat) (url : pystr) : M (list (download_result pystr) * state) unit :=
  try_except
    (result <- lift (download_audio url None) ;;
     assign (fun results =>
               results ++ [ {| item := url; file := Some result;
                               r_status := success; error := None |} ]))
    (fun e =>
       assign (fun results =>
                 results ++ [ {| item := url; file := None; r_status := failed;
                                 error := Some (exn_str e) |} ])).

Definition download_multiple (urls : list pystr) : M state (list (download_result pystr)) :=
  with_frame []
    (for_each multiple_item 1 urls ;;
     local (fun results => results)).

(** The local variables of [download_playlist] that outlive a
    statement: [original_output_dir] is unbound ([None]) until line 270
    has run. *)
Record playlist_locals := {
  original_output_dir : option path;
  results : list (download_result video);
  successful_downloads : nat;
}.

Definition bind_original (p : path) (l : playlist_locals) : playlist_locals :=
  {| original_output_dir := Some p; results := results l;
     successful_downloads := successful_downloads l |}.

Definition append_result (r : download_result video) (l : playlist_locals) : playlist_locals :=
  {| original_output_dir := original_output_dir l; results := results l ++ [r];
     successful_downloads := successful_downloads l |}.

Definition count_success (l : playlist_locals) : playlist_locals :=
  {| original_output_dir := original_output_dir l; results := results l;
     successful_downloads := successful_downloads l + 1 |}.

Definition reset_results (l : playlist_locals) : playlist_locals :=
  {| original_output_dir := original_output_dir l; results := [];
     successful_downloads := 0 |}.

(** [videos_to_download]: [max_videos] is [None] or an integer. *)
Definition limit_videos (max_videos : option Z) (videos : list video) : list video :=
  match max_videos with
  | Some k =>
      if (negb (k =? 0) && (0 <? k))%Z then take (Z.to_nat k) videos else videos
  | None => videos
  end.

(** [self.output_dir = dir; self.ydl_opts['outtmpl'] = str(dir / ...)] *)
Definition redirect_output (dir : path) : M state unit :=
  modify (set_output_dir dir) ;;
  opts <- gets self_ydl_opts ;;
  modify (set_ydl_opts (<[py "outtmpl" := outtmpl_of dir]> opts)).

(** The body of the loop of [download_playlist] (lines 282-307).  The
    suspension stands inside the [try] block, after the success entry
    is appended and counted: when it raises, the handler appends a
    failed entry for the same video.  The delay is a finite number,
    here a rational. *)
Definition playlist_item (delay : Q) (total : nat) (i : nat) (v : video) : M (playlist_locals * state) unit :=
  try_except
    (result <- lift (download_audio (v_url v) None) ;;
     assign (append_result {| item := v; file := Some result;
                              r_status := success; error := None |}) ;;
     assign count_success ;;
     if is_positive delay && (i <? total)%nat
     then lift (time_sleep delay)
     else ret tt)
    (fun e =>
       assign (append_result {| item := v; file := None; r_status := failed;
                                error := Some (exn_str e) |})).

Definition download_playlist (playlist_url : pystr) (max_videos : option Z) (delay_between_downloads : Q) : M state playlist_report :=
  if negb (is_playlist_url playlist_url)
  then raise (ValueError (py "URL is not a valid YouTube playlist"))
  else
    with_frame {| original_output_dir := None; results := [];
                  successful_downloads := 0 |}
      (try_except
         (info <- lift (get_playlist_info playlist_url) ;;
          let videos_to_download := limit_videos max_videos (pi_videos info) in
          let playlist_name := _sanitize_filename (pi_title info) in
          output_dir <- lift (gets self_output_dir) ;;
          let playlist_dir := joinpath output_dir playlist_name in
          lift (call (mkdir playlist_dir)) ;;
          original <- lift (gets self_output_dir) ;;
          assign (bind_original original) ;;
          lift (redirect_output playlist_dir) ;;
          assign reset_results ;;
          for_each (playlist_item delay_between_downloads (length videos_to_download))
                   1 videos_to_download ;;
          lift (redirect_output original) ;;
          results <- local results ;;
          successful <- local successful_downloads ;;
          ret {| rp_playlist_info := info;
                 rp_results := results;
                 rp_successful_downloads := successful;
                 rp_total_videos := length videos_to_download;
                 rp_output_directory := path_str playlist_dir |})
         (fun e =>
            original <- local original_output_dir ;;
            match original with
            | Some dir => lift (redirect_output dir)
            | None => ret tt
            end ;;
            raise (Exception (py "Playlist download failed: " ++ exn_str e)))).

(** ** [main] *)

Record cli_args := {
  a_url : pystr;
  a_output : option pystr;
  a_directory : pystr;
  a_playlist : bool;
  a_max_videos : option Z;
  a_delay : Q;
}.

(** Lines 408-435: the choice between the two downloads. *)
Definition main_download (args : cli_args) : M state (playlist_report + pystr) :=
  let is_playlist := a_playlist args || is_playlist_url (a_url args) in
  if is_playlist then
    result <- download_playlist (a_url args) (a_max_videos args) (a_delay args) ;;
    ret (inl result)
  else
    result <- download_audio (a_url args) (a_output args) ;;
    ret (inr result).

(** The exit status of [main] in world [w]: 1 when an exception reaches
    the handler of line 440, 0 otherwise. *)
Definition main (args : cli_args) (w : world) : Z :=
  match init (a_directory args) w with
  | inl _ => 1%Z
  | inr s =>
      match (main_download args s).2 with
      | inl _ => 1%Z
      | inr _ => 0%Z
      end
  end.

Inductive locator_kind := SingleItem | Collection.

(** The classification [main] performs: the choice of lines 409-411
    together with the entry check of the method chosen (lines 246 and
    163), which raises before any work is done. *)
Definition classify_locator (playlist_flag : bool) (url : pystr) : exn + locator_kind :=
  let is_playlist := playlist_flag || is_playlist_url url in
  if is_playlist then
    if negb (is_playlist_url url)
    then inl (ValueError (py "URL is not a valid YouTube playlist"))
    else inr Collection
  else
    if negb (is_valid_youtube_url url)
    then inl (ValueError (py "Invalid YouTube URL provided"))
    else inr SingleItem.

(** ** Reading the observation log *)

Definition attempted_urls (l : list event) : list pystr :=
  omap (fun e => match e with EvDownload _ url => Some url | _ => None end) l.

Definition attempt_dirs (l : list event) : list path :=
  omap (fun e => match e with EvDownload dir _ => Some dir | _ => None end) l.

Definition suspensions (l : list event) : list Q :=
  omap (fun e => match e with EvSleep d => Some d | _ => None end) l.

End Program.

(** ** A small concrete world

    Paths are strings joined by a slash; a video is unavailable when its
    URL is listed as such; a download writes the file the output
    template names; every playlist URL resolves to the one playlist of
    the world; the clock refuses a delay of more than 9223372036
    seconds. *)

Record demo_world := {
  dw_files : list pystr;
  dw_playlist : playlist_meta;
  dw_unavailable : list pystr;
}.

Definition demo_env : Env := {|
  world := demo_world;
  path := pystr;
  mk_path := fun s => s;
  joinpath := fun p name => p ++ py "/" ++ name;
  path_str := fun p => p;
  names_repr := fun files => mjoin files;
  which := fun name _ => Some (py "/usr/bin/" ++ name);
  os_path_exists := fun _ _ => false;
  mkdir := fun _ w => (w, inr tt);
  path_exists := fun p w => bool_decide (p ∈ dw_files w);
  glob := fun _ _ _ => [];
  getctime := fun _ _ => 0%Z;
  extract_video_info := fun url w =>
    if bool_decide (url ∈ dw_unavailable w)
    then (w, inl (DownloadError (py "Video unavailable")))
    else (w, inr {| vm_title := Some (py "Song " ++ drop 32 url);
                    vm_duration := Some 180%Z;
                    vm_uploader := None |});
  extract_flat_playlist := fun _ w => (w, inr (dw_playlist w));
  extract_download := fun opts _ w =>
    match opts !! py "outtmpl" with
    | Some (VStr template) =>
        ({| dw_files := dw_files w ++ [str_replace (py "%(ext)s") (py "mp3") template];
            dw_playlist := dw_playlist w;
            dw_unavailable := dw_unavailable w |}, inr tt)
    | _ => (w, inl (DownloadError (py "no output template")))
    end;
  sleep := fun seconds w =>
    if Qle_bool seconds 9223372036
    then (w, inr tt)
    else (w, inl (Exception (py "timestamp too large to convert to C _PyTime_t")));
|}.

Definition demo_entry (id : string) : option entry :=
  Some {| e_id := py id; e_title := Some (py "Track " ++ py id);
          e_duration := None; e_uploader := None |}.

Definition demo_playlist (entries : option (list (option entry))) : playlist_meta :=
  {| pm_entries := entries; pm_title := Some (py "My: Mix");
     pm_uploader := None |}.

(** a fresh instance on [downloads] in a world with the given playlist
    and unavailable videos *)
Definition demo_start (entries : option (list (option entry))) (unavailable : list pystr) : @state demo_env :=
  let w := {| dw_files := []; dw_playlist := demo_playlist entries;
              dw_unavailable := unavailable |} in
  match @init demo_env (py "downloads") w with
  | inr s => s
  | inl _ => @Build_state demo_env (py "downloads") ∅ w []
  end.

Definition demo_url : pystr := py "https://www.youtube.com/playlist?list=PL123".

Definition two_entries : list (option entry) :=
  [demo_entry "aaaaaaaaaaa"; None; demo_entry "bbbbbbbbbbb"].

Definition three_entries : list (option entry) :=
  [demo_entry "aaaaaaaaaaa"; demo_entry "bbbbbbbbbbb"; demo_entry "ccccccccccc"].

Definition watch (id : string) : pystr :=
  py "https://www.youtube.com/watch?v=" ++ py id.

Definition eight_entries : list (option entry) :=
  [demo_entry "video000001"; demo_entry "video000002"; demo_entry "video000003";
   None; demo_entry "video000004"; demo_entry "video000005";
   demo_entry "video000006"; demo_entry "video000007"; demo_entry "video000008"].

(** ** Vocabulary of the properties *)

(** the pointwise substitution that replaces every character of [bad] *)
Definition subst_chars (bad : pystr) (u c : N) : N :=
  if bool_decide (c ∈ bad) then u else c.

Definition ends_with_space (s : pystr) : bool :=
  match last s with Some c => isspace c | None => false end.

(** 99 letters, a space, one more letter *)
Definition long_name : pystr := replicate 99 97 ++ py " b".

Definition successes {K} (rs : list (download_result K)) : nat :=
  length (filter (fun r => is_success r = true) rs).

Definition failures {K} (rs : list (download_result K)) : nat :=
  length (filter (fun r => is_success r = false) rs).


(** the entry a loop appends for an item whose download returned a path
    or raised *)
Definition record_of {K} (k : K) (outcome : exn + pystr) : download_result K :=
  match outcome with
  | inr p => {| item := k; file := Some p; r_status := success; error := None |}
  | inl e => {| item := k; file := None; r_status := failed;
                error := Some (exn_str e) |}
  end.

(** the video dictionary built for an entry of the extractor *)
Definition entry_video (e : entry) : video :=
  {| v_url := py "https://www.youtube.com/watch?v=" ++ e_id e;
     v_title := get_or (e_title e) (py "Unknown Title");
     v_duration := get_or (e_duration e) 0%Z;
     v_uploader := get_or (e_uploader e) (py "Unknown") |}.

(** the entries that are not [None], in order *)
Definition available (entries : list (option entry)) : list entry :=
  omap (fun e => e) entries.


(** What became of the suspension after an item of the playlist loop:
    not called, returned, or raised. *)
Inductive pause := NoPause | Paused | PauseRaised (e : exn).

(** One turn of the playlist loop: the video, what its download gave,
    and the suspension after it. *)
Record turn := {
  t_video : video;
  t_download : exn + pystr;
  t_pause : pause;
}.

Definition downloaded (t : turn) : bool :=
  match t_download t with inr _ => true | inl _ => false end.

(** The result entries of a turn: the entry of the download, and after
    it the failed entry the handler appends when the suspension
    raised. *)
Definition turn_entries (t : turn) : list (download_result video) :=
  record_of (t_video t) (t_download t)
  :: match t_pause t with
     | PauseRaised e => [record_of (t_video t) (inl e)]
     | _ => []
     end.

(** the number of turns whose download returned *)
Definition downloads_done (ts : list turn) : nat :=
  length (filter (fun t => downloaded t = true) ts).

(** the number of turns whose suspension raised *)
Definition pause_raised (t : turn) : bool :=
  match t_pause t with PauseRaised _ => true | _ => false end.

Definition pauses_raised (ts : list turn) : nat :=
  length (filter (fun t => pause_raised t = true) ts).

Section Vocabulary.
Context `{Env}.

(** the locals of [download_playlist] after the turns [ts] *)
Definition add_turns (ts : list turn) (l : playlist_locals) : playlist_locals :=
  {| original_output_dir := original_output_dir l;
     results := results l ++ (ts ≫= turn_entries);
     successful_downloads := successful_downloads l + downloads_done ts |}.

(** a computation that changes nothing but the world *)
Definition keeps_self {A} (m : M state A) : Prop :=
  forall s,
    self_output_dir (m s).1 = self_output_dir s
    /\ self_ydl_opts (m s).1 = self_ydl_opts s
    /\ log (m s).1 = log s.

(** The events the loop of [download_playlist] leaves for the result
    entries [rs] when every suspension it calls returns, the first of
    the entries being item number [i] of [total]: one download per
    entry, followed by a suspension when the entry is a success, the
    delay is positive and the item is not the last. *)
Fixpoint item_events (delay : Q) (total : nat) (dir : path) (i : nat) (rs : list (download_result video)) : list event :=
  match rs with
  | [] => []
  | r :: rest =>
      EvDownload dir (v_url (item r))
      :: (if is_success r && is_positive delay && (i <? total)%nat
          then [EvSleep delay] else [])
      ++ item_events delay total dir (S i) rest
  end.

(** the entry is what the loop records for a call of [download_audio]
    on the URL of its item, made in some state of the run *)
Definition recorded {K} (url_of : K -> pystr) (r : download_result K) : Prop :=
  exists st, r = record_of (item r) (download_audio (url_of (item r)) None st).2.


(** [time.sleep] accepts the delay: the call returns in every world *)
Definition sleep_returns (delay : Q) : Prop :=
  forall w, (sleep delay w).2 = inr tt.

(** what a turn leaves in the log *)
Definition turn_events (delay : Q) (dir : path) (t : turn) : list event :=
  EvDownload dir (v_url (t_video t))
  :: match t_pause t with
     | Paused => [EvSleep delay]
     | _ => []
     end.

(** The turns of the playlist loop over the videos [vs], the first of
    them being item number [i] of [total], from state [s]: each video
    is downloaded in the state the turn before left, and the suspension
    is called after a download that returned when the delay is positive
    and the item is not the last. *)
Fixpoint playlist_turns (delay : Q) (total i : nat) (vs : list video) (s : state) : list turn * state :=
  match vs with
  | [] => ([], s)
  | v :: rest =>
      let out := download_audio (v_url v) None s in
      let due :=
        match out.2 with
        | inr _ => is_positive delay && (i <? total)%nat
        | inl _ => false
        end in
      let slept := time_sleep delay out.1 in
      let t := {| t_video := v; t_download := out.2;
                  t_pause := if due
                             then match slept.2 with
                                  | inr _ => Paused
                                  | inl e => PauseRaised e
                                  end
                             else NoPause |} in
      let later := playlist_turns delay total (S i) rest (if due then slept.1 else out.1) in
      (t :: later.1, later.2)
  end.

(** the events logged between two states of a run *)
Definition new_events (before after : state) : list event :=
  drop (length (log before)) (log after).

(** the instance invariant that [__init__] establishes: the output
    template is the one derived from the output directory *)
Definition template_in_step (s : state) : Prop :=
  self_ydl_opts s !! py "outtmpl" = Some (outtmpl_of (self_output_dir s)).

End Vocabulary.

(** ** The rest of the module and the example script *)

(** *** [extract_playlist_id] *)

(** [urllib.parse] as the method uses it: [urlparse(url).query], which
    may raise, and [parse_qs]; nothing is assumed of either. *)
Class UrlLib := {
  urlparse_query : pystr -> exn + pystr;
  parse_qs : pystr -> gmap pystr (list pystr);
}.

(** What a subscript adds to the exceptions of the library. *)
Inductive lookup_error :=
| Raised (e : exn)
| KeyError (key : pystr)
| IndexError.

(** [needle in hay] on strings *)
Fixpoint str_contains (needle hay : pystr) : bool :=
  starts_with needle hay ||
  match hay with
  | [] => false
  | _ :: rest => str_contains needle rest
  end.

(** a character of [[a-zA-Z0-9_-]] *)
Definition is_id_char (c : N) : bool :=
  in_ranges c (range "a" "z" ++ range "A" "Z" ++ range "0" "9" ++ chars "_-").

(** the longest prefix of characters that satisfy [p] *)
Fixpoint span (p : N -> bool) (s : pystr) : pystr :=
  match s with
  | c :: rest => if p c then c :: span p rest else []
  | [] => []
  end.

(** [re.search(r'[&?]list=([a-zA-Z0-9_-]+)', s)] with its [group(1)]:
    the match starts at the leftmost place where the pattern fits, and
    the group, being greedy and last, takes every identifier character
    that follows. *)
Fixpoint search_list_id (s : pystr) : option pystr :=
  match s with
  | [] => None
  | c :: rest =>
      if in_ranges c (chars "&?") && starts_with (py "list=") rest
         && negb (bool_decide (span is_id_char (drop 5 rest) = []))
      then Some (span is_id_char (drop 5 rest))
      else search_list_id rest
  end.

(** The method returns a string or [None], or raises. *)
Definition extract_playlist_id `{UrlLib} (url : pystr) : lookup_error + option pystr :=
  match urlparse_query url with
  | inl e => inl (Raised e)
  | inr query =>
      if str_contains (py "list") query then
        match parse_qs query !! py "list" with
        | None => inl (KeyError (py "list"))
        | Some [] => inl IndexError
        | Some (value :: _) => inr (Some value)
        end
      else
        match search_list_id url with
        | Some id => inr (Some id)
        | None => inr None
        end
  end.

(** the first and the third pattern of [is_playlist_url] *)
Definition list_parameter_pattern : regex :=
  Seq [Cls false (chars "&?"); Lit "list="; list_id].

Definition watch_list_pattern : regex :=
  Seq [Lit "youtube.com/watch?"; Star Dot; Lit "list="; list_id].

(** whether the whole of [s] matches: the derivative by every character
    in turn is nullable *)
Definition re_fullmatch (r : regex) (s : pystr) : bool :=
  nullable (foldl (fun r c => deriv c r) r s).

(** the characters a video identifier may not start with for the URL
    check: those of the class [[&=%?]] *)
Definition is_url_special (c : N) : bool := in_ranges c (chars "&=%?").

(** *** [batch_playlist_download] of the example script *)

Record playlist_config := {
  c_url : pystr;
  c_max_videos : option Z;
  c_delay : Q;
}.

Definition batch_playlists : list playlist_config :=
  [ {| c_url := py "https://www.youtube.com/playlist?list=PLAYLIST1";
       c_max_videos := Some 10%Z; c_delay := 1.5%Q |};
    {| c_url := py "https://www.youtube.com/playlist?list=PLAYLIST2";
       c_max_videos := None; c_delay := 2.0%Q |} ].

Section Example.
Context `{Env}.

(** The body of the loop: one playlist, its failure swallowed (lines
    97-107 of the example script). *)
Definition batch_item (i : nat) (c : playlist_config) : M state unit :=
  try_except
    (bind (download_playlist (c_url c) (c_max_videos c) (c_delay c))
          (fun _ => ret tt))
    (fun _ => ret tt).

Definition batch_loop (playlists : list playlist_config) : M state unit :=
  for_each batch_item 1 playlists.

(** The function in world [w]: the exception of the constructor, which
    stands outside the loop, or the state the loop ends in. *)
Definition batch_playlist_download (w : world) : exn + state :=
  match init (py "batch_downloads") w with
  | inl e => inl e
  | inr s => inr (batch_loop batch_playlists s).1
  end.

(** The option dictionary [download_audio] hands to the extractor for
    the base name [name]: a copy of the instance's, with the template
    and [verbose] set. *)
Definition current_options (s : state) (name : pystr) : gmap pystr pyval :=
  <[py "verbose" := VBool false]>
    (<[py "outtmpl" :=
         VStr (path_str (joinpath (self_output_dir s) (name ++ py ".%(ext)s")))]>
       (self_ydl_opts s)).


End Example.

(** a query library for the concrete runs: the query is what follows
    the first question mark, parameters are separated by [&] and split
    at their first [=] *)
Definition after_char (c : N) (s : pystr) : pystr :=
  match span (fun x => negb (x =? c)) s with
  | before => drop (S (length before)) s
  end.

Fixpoint split_on (c : N) (fuel : nat) (s : pystr) : list pystr :=
  match fuel with
  | O => [s]
  | S fuel' =>
      let first := span (fun x => negb (x =? c)) s in
      if (length first <? length s)%nat
      then first :: split_on c fuel' (drop (S (length first)) s)
      else [s]
  end.

Definition demo_urllib : UrlLib := {|
  urlparse_query := fun url => inr (after_char (ch "?") url);
  parse_qs := fun query =>
    list_to_map
      ((fun item =>
          let key := span (fun x => negb (x =? ch "=")) item in
          (key, [drop (S (length key)) item]))
       <$> split_on (ch "&") (length query) query);
|}.

(** *** The exception handlers of [download_audio] *)

(** What the three handlers of lines 223-228 raise for the exception
    [e] they catch. *)
Definition download_failure (e : exn) : exn :=
  match e with
  | DownloadError _ => Exception (py "yt-dlp download error: " ++ exn_str e)
  | FileNotFoundError _ =>
      Exception (py "File system error (check FFmpeg installation): " ++ exn_str e)
  | _ => Exception (py "Download failed: " ++ exn_str e)
  end.

Definition failure_prefixes : list pystr :=
  [ py "yt-dlp download error: ";
    py "File system error (check FFmpeg installation): ";
    py "Download failed: " ].

(** a world whose converter names the file after a scheme of its own:
    the world is the list of the files of the output directory, each
    with its creation time *)
Definition stray_env : Env := {|
  world := list (pystr * Z);
  path := pystr;
  mk_path := fun s => s;
  joinpath := fun p name => p ++ py "/" ++ name;
  path_str := fun p => p;
  names_repr := fun files => mjoin files;
  which := fun name _ => Some (py "/usr/bin/" ++ name);
  os_path_exists := fun _ _ => false;
  mkdir := fun _ w => (w, inr tt);
  path_exists := fun p w => bool_decide (p ∈ w.*1);
  glob := fun _ _ w => w.*1;
  getctime := fun p w =>
    match list_find (fun f => f.1 = p) w with
    | Some (_, f) => f.2
    | None => 0%Z
    end;
  extract_video_info := fun url w =>
    (w, inr {| vm_title := None; vm_duration := None; vm_uploader := None |});
  extract_flat_playlist := fun _ w =>
    (w, inl (DownloadError (py "no playlists here")));
  extract_download := fun _ _ w =>
    (w ++ [(py "downloads/converted.mp3", Z.of_nat (S (length w)))], inr tt);
  sleep := fun _ w => (w, inr tt);
|}.

Definition stray_start : @state stray_env :=
  @Build_state stray_env (py "downloads") ∅
    [(py "downloads/old.mp3", 0%Z); (py "downloads/older.mp3", (-5)%Z)] [].
(* ------------------------------------------------------------------ *)
(** * Properties *)

(** ** Strings *)

Example py_example : py "a_b" = [97; 95; 98].
Proof. reflexivity. Qed.

Example sanitize_example :
  _sanitize_filename (py "My: Song / Mix?") = py "My_ Song _ Mix_".
Proof. reflexivity. Qed.

Example sanitize_blank : _sanitize_filename (py "   ") = py "Unknown_Playlist".
Proof. reflexivity. Qed.

Example sanitize_unicode_blanks :
  _sanitize_filename ([0x3000] ++ py "a<b" ++ [0x2003; 0xA0]) = py "a_b".
Proof. reflexivity. Qed.

Example replace_examples :
  str_replace (py ".mp3") [] (py "a.mp3b") = py "ab"
  /\ str_replace (py ".mp3") [] (py ".m.mp3p3") = py ".mp3"
  /\ str_replace (py "aa") (py "b") (py "aaa") = py "ba"
  /\ str_replace [] (py "-") (py "abc") = py "-a-b-c-".
Proof. repeat split; reflexivity. Qed.

(** *** [replace] with a one-character pattern is a pointwise substitution *)

Lemma starts_with_single a c r : starts_with [a] (c :: r) = (a =? c).
Proof. simpl. by rewrite andb_true_r. Qed.

Lemma replace_scan_single a u s :
  replace_scan [a] [u] 0 s = (fun c => if a =? c then u else c) <$> s.
Proof.
  induction s as [|c r IH]; [done|].
  cbn [replace_scan]. rewrite starts_with_single. cbn [length Nat.sub].
  rewrite IH. rewrite fmap_cons. by destruct (a =? c).
Qed.

Lemma foldl_replace_subst bad u s :
  u ∉ bad ->
  foldl (fun f ch => str_replace [ch] [u] f) s bad = subst_chars bad u <$> s.
Proof.
  revert s. induction bad as [|a bad IH]; intros s Hu.
  - cbn. rewrite <- (list_fmap_id s) at 1. apply list_fmap_ext.
    intros i x ?. unfold subst_chars. rewrite bool_decide_eq_false_2; [done|].
    apply not_elem_of_nil.
  - apply not_elem_of_cons in Hu as [Hua Hub].
    cbn [foldl]. rewrite IH by done.
    unfold str_replace. rewrite replace_scan_single, <- list_fmap_compose.
    apply list_fmap_ext. intros i x ?. cbn. unfold subst_chars.
    destruct (N.eqb_spec a x) as [->|Hne].
    + rewrite (bool_decide_eq_false_2 (u ∈ bad)) by done.
      rewrite bool_decide_eq_true_2; [done|]. apply list_elem_of_here.
    + destruct (decide (x ∈ bad)) as [Hin|Hin].
      * rewrite !bool_decide_eq_true_2; [done| |done].
        by apply list_elem_of_further.
      * rewrite !bool_decide_eq_false_2; [done| |done].
        intros [?|?]%elem_of_cons; [congruence|done].
Qed.

Lemma subst_chars_clean bad u c : u ∉ bad -> subst_chars bad u c ∉ bad.
Proof. unfold subst_chars. case_bool_decide; done. Qed.

Lemma subst_chars_id bad u s :
  Forall (fun c => c ∉ bad) s -> subst_chars bad u <$> s = s.
Proof.
  induction 1 as [|c r Hc _ IH]; [done|].
  cbn. rewrite IH. unfold subst_chars. by rewrite bool_decide_eq_false_2.
Qed.

(** *** [strip] *)

Lemma lstrip_suffix s : lstrip s `suffix_of` s.
Proof.
  induction s as [|c r IH]; [done|]. cbn.
  destruct (isspace c); [by apply suffix_cons_r|done].
Qed.

Lemma lstrip_head s c r : lstrip s = c :: r -> isspace c = false.
Proof.
  induction s as [|d t IH]; [done|]. cbn.
  destruct (isspace d) eqn:E; [done|]. intros [= <- <-]. done.
Qed.

Lemma lstrip_id c r : isspace c = false -> lstrip (c :: r) = c :: r.
Proof. intros H. cbn. by rewrite H. Qed.

Lemma rstrip_prefix s : rstrip s `prefix_of` s.
Proof.
  unfold rstrip. destruct (lstrip_suffix (reverse s)) as [k Hk].
  exists (reverse k). apply (inj reverse).
  by rewrite reverse_app, !reverse_involutive.
Qed.

Lemma rstrip_last s c : last (rstrip s) = Some c -> isspace c = false.
Proof.
  unfold rstrip. rewrite last_reverse.
  destruct (lstrip (reverse s)) as [|d t] eqn:E; [done|].
  intros [= ->]. by eapply lstrip_head.
Qed.

Lemma rstrip_id s c : last s = Some c -> isspace c = false -> rstrip s = s.
Proof.
  intros Hl Hc. unfold rstrip. rewrite <- head_reverse in Hl.
  destruct (reverse s) as [|d t] eqn:E; [done|]. injection Hl as ->.
  rewrite lstrip_id by done. by rewrite <- E, reverse_involutive.
Qed.

Lemma strip_infix s : exists a b, s = a ++ strip s ++ b.
Proof.
  unfold strip. destruct (lstrip_suffix s) as [a Ha].
  destruct (rstrip_prefix (lstrip s)) as [b Hb].
  exists a, b. by rewrite <- Hb.
Qed.

Lemma strip_head s c r : strip s = c :: r -> isspace c = false.
Proof.
  unfold strip. intros H.
  destruct (rstrip_prefix (lstrip s)) as [k Hk]. rewrite H in Hk.
  by eapply lstrip_head.
Qed.

Lemma strip_id s c d :
  head s = Some c -> isspace c = false ->
  last s = Some d -> isspace d = false -> strip s = s.
Proof.
  intros Hh Hc Hl Hd. unfold strip. destruct s as [|x r]; [done|].
  injection Hh as ->. rewrite lstrip_id by done. by eapply rstrip_id.
Qed.

(** *** [_sanitize_filename] *)

Lemma underscore_valid : 95 ∉ invalid_chars.
Proof. apply (bool_decide_unpack _). vm_compute. exact I. Qed.

Lemma sanitize_unfold s :
  _sanitize_filename s
  = str_or (take 100 (strip (subst_chars invalid_chars 95 <$> s)))
           (py "Unknown_Playlist").
Proof.
  unfold _sanitize_filename. change (py "_") with [95].
  by rewrite (foldl_replace_subst _ _ _ underscore_valid).
Qed.

Lemma sanitize_cases s :
  let body := take 100 (strip (subst_chars invalid_chars 95 <$> s)) in
  (body = [] /\ _sanitize_filename s = py "Unknown_Playlist")
  \/ (body <> [] /\ _sanitize_filename s = body).
Proof.
  cbn zeta. rewrite sanitize_unfold. unfold str_or.
  destruct (take 100 _) as [|c r]; cbn; [by left|by right].
Qed.

Lemma sanitize_no_invalid s :
  Forall (fun c => c ∉ invalid_chars) (_sanitize_filename s).
Proof.
  destruct (sanitize_cases s) as [[_ ->]|[_ ->]].
  - apply Forall_forall. intros c Hc Hbad.
    revert Hc Hbad. vm_compute. intros Hc Hbad.
    repeat (apply elem_of_cons in Hc as [->|Hc];
            [by repeat (apply elem_of_cons in Hbad as [?|Hbad]; [done|]);
                apply elem_of_nil in Hbad|]).
    by apply elem_of_nil in Hc.
  - apply Forall_take.
    destruct (strip_infix (subst_chars invalid_chars 95 <$> s)) as (a & b & E).
    assert (H : Forall (fun c => c ∉ invalid_chars)
                       (subst_chars invalid_chars 95 <$> s)).
    { apply Forall_fmap, Forall_forall. intros c _. cbn.
      apply subst_chars_clean, underscore_valid. }
    rewrite E in H. apply Forall_app in H as [_ H].
    by apply Forall_app in H as [H _].
Qed.

Lemma sanitize_length s : (length (_sanitize_filename s) <= 100)%nat.
Proof.
  destruct (sanitize_cases s) as [[_ ->]|[_ ->]].
  - vm_compute. lia.
  - rewrite length_take. lia.
Qed.

Lemma sanitize_nonempty s : _sanitize_filename s <> [].
Proof. by destruct (sanitize_cases s) as [[_ ->]|[? ->]]. Qed.

Lemma sanitize_head s c : head (_sanitize_filename s) = Some c -> isspace c = false.
Proof.
  destruct (sanitize_cases s) as [[_ ->]|[Hne ->]].
  - by intros [= <-].
  - destruct (strip _) as [|d r] eqn:E; [done|].
    cbn. intros [= <-]. by eapply strip_head.
Qed.

(** A name of white space only, the empty name among them, is replaced
    by the placeholder. *)
Lemma sanitize_placeholder s :
  Forall (fun c => isspace c = true) s ->
  _sanitize_filename s = py "Unknown_Playlist".
Proof.
  intros Hs. destruct (sanitize_cases s) as [[_ ->]|[Hne _]]; [done|].
  exfalso. apply Hne.
  assert (E : lstrip (subst_chars invalid_chars 95 <$> s) = []).
  { clear Hne. induction Hs as [|c r Hc _ IH]; [done|].
    rewrite fmap_cons. cbn [lstrip].
    assert (subst_chars invalid_chars 95 c = c) as ->.
    { unfold subst_chars. rewrite bool_decide_eq_false_2; [done|].
      intros Hin. revert Hc. clear -Hin. revert Hin. vm_compute. intros Hin.
      repeat (apply elem_of_cons in Hin as [->|Hin]; [done|]).
      by apply elem_of_nil in Hin. }
    rewrite Hc. exact IH. }
  unfold strip. by rewrite E.
Qed.

Lemma sanitize_fixpoint t :
  Forall (fun c => c ∉ invalid_chars) t ->
  (length t <= 100)%nat -> t <> [] ->
  (forall c, head t = Some c -> isspace c = false) ->
  ends_with_space t = false ->
  _sanitize_filename t = t.
Proof.
  intros Hclean Hlen Hne Hhead Hlast.
  rewrite sanitize_unfold, subst_chars_id by done.
  unfold ends_with_space in Hlast.
  destruct t as [|c r]; [done|].
  destruct (last (c :: r)) as [d|] eqn:El.
  2:{ by apply last_None in El. }
  rewrite (strip_id (c :: r) c d) by auto.
  by rewrite take_ge.
Qed.

Lemma sanitize_stable (s : pystr) :
  ends_with_space (_sanitize_filename s) = false ->
  _sanitize_filename (_sanitize_filename s) = _sanitize_filename s.
Proof.
  intros H. apply sanitize_fixpoint; auto.
  - apply sanitize_no_invalid.
  - apply sanitize_length.
  - apply sanitize_nonempty.
  - apply sanitize_head.
Qed.

(** *** Removing the [.mp3] marker *)

Lemma replace_scan_nil old new k : replace_scan old new k [] = [].
Proof. by destruct k. Qed.

Lemma starts_with_mp3_app c r post :
  starts_with (py ".mp3") (c :: r ++ py ".mp3" ++ post)
  = starts_with (py ".mp3") (c :: r).
Proof.
  change (py ".mp3") with [46; 109; 112; 51].
  destruct r as [|d [|e [|f r]]]; cbn;
    rewrite ?andb_false_r; try done.
Qed.

Lemma starts_with_mp3_length s :
  starts_with (py ".mp3") s = true -> (4 <= length s)%nat.
Proof.
  change (py ".mp3") with [46; 109; 112; 51].
  destruct s as [|c [|d [|e [|f r]]]]; cbn;
    rewrite ?andb_false_r; try done.
  intros _. lia.
Qed.

Lemma replace_scan_mp3_app k pre post :
  (k <= length pre)%nat ->
  replace_scan (py ".mp3") [] k (pre ++ py ".mp3" ++ post)
  = replace_scan (py ".mp3") [] k pre ++ replace_scan (py ".mp3") [] 0 post.
Proof.
  revert k. induction pre as [|c r IH]; intros k Hk.
  - assert (k = 0)%nat as -> by (cbn in Hk; lia).
    change (py ".mp3") with [46; 109; 112; 51]. reflexivity.
  - destruct k as [|k].
    + rewrite <- app_comm_cons. cbn [replace_scan].
      rewrite starts_with_mp3_app.
      destruct (starts_with (py ".mp3") (c :: r)) eqn:E.
      * apply starts_with_mp3_length in E. cbn in E.
        rewrite !app_nil_l. apply IH.
        change (py ".mp3") with [46; 109; 112; 51]. cbn. lia.
      * rewrite <- app_comm_cons. f_equal. apply IH. lia.
    + rewrite <- app_comm_cons. cbn [replace_scan]. apply IH.
      cbn in Hk. lia.
Qed.

Lemma replace_mp3_app pre post :
  str_replace (py ".mp3") [] (pre ++ py ".mp3" ++ post)
  = str_replace (py ".mp3") [] pre ++ str_replace (py ".mp3") [] post.
Proof.
  unfold str_replace. change (py ".mp3") with [46; 109; 112; 51].
  apply (replace_scan_mp3_app 0). lia.
Qed.

(** ** The claims on file names *)

(** C3.  For every string the sanitised name contains none of the nine
    invalid characters, is at most 100 characters long, and is not the
    empty string. *)
Theorem sanitize_output_safe (s : pystr) :
  Forall (fun c => c ∉ invalid_chars) (_sanitize_filename s)
  /\ (length (_sanitize_filename s) <= 100)%nat
  /\ _sanitize_filename s <> [].
Proof.
  split; [apply sanitize_no_invalid|].
  split; [apply sanitize_length|apply sanitize_nonempty].
Qed.

(** C2, as stated, fails: truncation to 100 characters happens after
    stripping, so it can leave a trailing space that a second pass
    strips. *)
Lemma sanitize_not_idempotent :
  _sanitize_filename (_sanitize_filename long_name)
  <> _sanitize_filename long_name.
Proof.
  intros H. apply (f_equal length) in H. vm_compute in H. discriminate H.
Qed.

Example sanitize_long_name :
  _sanitize_filename long_name = replicate 99 97 ++ [32]
  /\ _sanitize_filename (replicate 99 97 ++ [32]) = replicate 99 97.
Proof. split; vm_compute; reflexivity. Qed.

(** C2 (amended).  Sanitising twice gives the same name as sanitising
    once for every string whose sanitised name does not end in a
    whitespace character. *)
Theorem sanitize_idempotent_unless_trailing_space (s : pystr) :
  ends_with_space (_sanitize_filename s) = false ->
  _sanitize_filename (_sanitize_filename s) = _sanitize_filename s.
Proof.
  intros Hlast.
  pose proof (sanitize_no_invalid s) as Hclean.
  pose proof (sanitize_length s) as Hlen.
  pose proof (sanitize_nonempty s) as Hne.
  pose proof (sanitize_head s) as Hhead.
  set (t := _sanitize_filename s) in *.
  rewrite sanitize_unfold, subst_chars_id by done.
  unfold ends_with_space in Hlast.
  destruct t as [|c r]; [done|].
  destruct (last (c :: r)) as [d|] eqn:El; [|by apply last_None in El].
  rewrite (strip_id (c :: r) c d) by auto.
  by rewrite take_ge.
Qed.

Lemma sanitize_idempotent_unless_trailing_space_witness :
  ends_with_space (_sanitize_filename (py "My: Song / Mix?")) = false
  /\ _sanitize_filename (_sanitize_filename (py "My: Song / Mix?"))
     = _sanitize_filename (py "My: Song / Mix?").
Proof.
  split; [reflexivity|].
  apply (sanitize_idempotent_unless_trailing_space (py "My: Song / Mix?")).
  reflexivity.
Defined.

(** The hypothesis of the amended C2 is also necessary. *)
Lemma sanitize_idempotent_iff (s : pystr) :
  _sanitize_filename (_sanitize_filename s) = _sanitize_filename s
  <-> ends_with_space (_sanitize_filename s) = false.
Proof.
  split; [|apply sanitize_stable].
  intros H. unfold ends_with_space.
  destruct (last (_sanitize_filename s)) as [d|] eqn:El; [|done].
  rewrite <- H in El.
  destruct (sanitize_cases (_sanitize_filename s)) as [[_ E]|[_ E]].
  - rewrite E in El. vm_compute in El. by injection El as <-.
  - rewrite E in El.
    rewrite subst_chars_id in El by apply sanitize_no_invalid.
    rewrite take_ge in El.
    2:{ destruct (strip_infix (_sanitize_filename s)) as (a & b & Hab).
        pose proof (sanitize_length s) as Hl. rewrite Hab in Hl.
        rewrite !length_app in Hl. lia. }
    by eapply rstrip_last.
Qed.

(** Names short enough not to be truncated are always fixed points. *)
Lemma sanitize_idempotent_short (s : pystr) :
  (length s <= 100)%nat ->
  _sanitize_filename (_sanitize_filename s) = _sanitize_filename s.
Proof.
  intros Hs. apply sanitize_stable.
  unfold ends_with_space.
  destruct (last (_sanitize_filename s)) as [d|] eqn:El; [|done].
  destruct (sanitize_cases s) as [[_ E]|[_ E]]; rewrite E in El.
  - vm_compute in El. by injection El as <-.
  - rewrite take_ge in El; [by eapply rstrip_last|].
    destruct (strip_infix (subst_chars invalid_chars 95 <$> s)) as (a & b & Hab).
    apply (f_equal length) in Hab.
    rewrite length_fmap, !length_app in Hab. lia.
Qed.

(** A second pass always reaches a fixed point. *)
Lemma sanitize_twice_stable (s : pystr) :
  _sanitize_filename (_sanitize_filename (_sanitize_filename s))
  = _sanitize_filename (_sanitize_filename s).
Proof. apply sanitize_idempotent_short, sanitize_length. Qed.

(** C10.  With an explicit output filename, [download_audio] removes
    every occurrence of [.mp3] from the name, wherever it stands, before
    sanitising; so for the name [a.mp3b] the base name saved under is
    [ab], not the sanitised form [a.mp3b] of the given name. *)
Theorem output_name_drops_every_mp3 :
  (forall title pre post,
      output_base_name title (Some (pre ++ py ".mp3" ++ post))
      = _sanitize_filename (str_replace (py ".mp3") [] pre
                            ++ str_replace (py ".mp3") [] post))
  /\ (forall title, output_base_name title (Some (py "a.mp3b")) = py "ab")
  /\ _sanitize_filename (py "a.mp3b") = py "a.mp3b".
Proof.
  split; [|split; reflexivity].
  intros title pre post. unfold output_base_name.
  rewrite replace_mp3_app.
  destruct pre; reflexivity.
Qed.

(** ** URLs *)

Example single_video_url :
  is_valid_youtube_url (py "https://www.youtube.com/watch?v=abc12345678") = true
  /\ is_playlist_url (py "https://www.youtube.com/watch?v=abc12345678") = false.
Proof. split; vm_compute; reflexivity. Qed.

Example playlist_url :
  is_playlist_url (py "https://www.youtube.com/playlist?list=PL123") = true.
Proof. vm_compute; reflexivity. Qed.

Example overlap_url :
  is_valid_youtube_url (py "https://www.youtube.com/watch?v=abc12345678&list=PL123") = true
  /\ is_playlist_url (py "https://www.youtube.com/watch?v=abc12345678&list=PL123") = true.
Proof. split; vm_compute; reflexivity. Qed.

Example short_url : is_valid_youtube_url (py "youtu.be/dQw4w9WgXcQ") = true.
Proof. vm_compute; reflexivity. Qed.

Example url_tests :
  is_valid_youtube_url (py "https://www.youtube.com/watch?v=abc") = false
  /\ is_valid_youtube_url (py "https://example.com/watch?v=abc12345678") = false
  /\ is_valid_youtube_url (py "https://www.youtube.com/playlist?list=PL123") = false
  /\ is_valid_youtube_url (py "https://www.youtube.com/playlist?list=PL12345678") = false
  /\ is_valid_youtube_url (py "http://youtube-nocookie.com/embed/abc12345678") = true
  /\ is_valid_youtube_url (py "https://www.youtube.com/x/y?v=abc12345678") = true
  /\ is_playlist_url (py "https://example.com/?list=x") = true
  /\ is_playlist_url (py "youtube.com/watch?xlist=a") = true
  /\ is_playlist_url (py "youtube.com/watch?xlist=") = false
  /\ is_playlist_url (py "example.com/watch?xlist=a") = false.
Proof. repeat split; vm_compute; reflexivity. Qed.

(** ** The derivative matcher decides the language of a pattern *)

Lemma matches_void s : ~ matches Void s.
Proof. inversion 1. Qed.

Lemma matches_eps s : matches Eps s <-> s = [].
Proof. split; [by inversion 1|intros ->; constructor]. Qed.

Lemma matches_single r s :
  match r with Chr _ | Dot | Cls _ _ => True | _ => False end ->
  matches r s <-> exists c, s = [c] /\ accepts r c = true.
Proof.
  destruct r; try done; intros _; cbn; split.
  - inversion 1; subst. eexists; split; [done|]. apply N.eqb_refl.
  - intros (d & -> & ->%N.eqb_eq). constructor.
  - inversion 1; subst. eexists; split; [done|].
    by apply negb_true_iff, N.eqb_neq.
  - intros (d & -> & Hd). constructor.
    by apply negb_true_iff, N.eqb_neq in Hd.
  - inversion 1; subst. by eexists.
  - intros (d & -> & Hd). by constructor.
Qed.

Lemma matches_cat r1 r2 s :
  matches (Cat r1 r2) s <->
  exists s1 s2, s = s1 ++ s2 /\ matches r1 s1 /\ matches r2 s2.
Proof.
  split.
  - inversion 1; subst. eauto.
  - intros (s1 & s2 & -> & H1 & H2). by constructor.
Qed.

Lemma matches_alt r1 r2 s :
  matches (Alt r1 r2) s <-> matches r1 s \/ matches r2 s.
Proof.
  split.
  - inversion 1; subst; auto.
  - intros [H|H]; [by apply m_alt_l|by apply m_alt_r].
Qed.

Lemma matches_star_cons r c s :
  matches (Star r) (c :: s) ->
  exists s1 s2, s = s1 ++ s2 /\ matches r (c :: s1) /\ matches (Star r) s2.
Proof.
  intros H. remember (Star r) as r' eqn:Er. remember (c :: s) as w eqn:Ew.
  revert s Ew. induction H as [| | | | | | | |r0 s1 s2 H1 _ H2 IH2];
    try discriminate; intros s Ew.
  injection Er as ->. destruct s1 as [|d s1].
  - cbn in Ew. by apply IH2.
  - cbn in Ew. injection Ew as -> <-. eauto.
Qed.

Lemma nullable_spec r : nullable r = true <-> matches r [].
Proof.
  induction r as [| | | | |r1 IH1 r2 IH2|r1 IH1 r2 IH2|r IH]; cbn.
  - split; [done|]. by intros ?%matches_void.
  - split; [constructor|done].
  - split; [done|]. inversion 1.
  - split; [done|]. inversion 1.
  - split; [done|]. inversion 1.
  - rewrite andb_true_iff, IH1, IH2, matches_cat. split.
    + intros [H1 H2]. by exists [], [].
    + intros (s1 & s2 & E & H1 & H2).
      symmetry in E. apply app_eq_nil in E as [-> ->]. done.
  - by rewrite orb_true_iff, IH1, IH2, matches_alt.
  - split; [constructor|done].
Qed.

Lemma cat_spec r1 r2 s : matches (cat r1 r2) s <-> matches (Cat r1 r2) s.
Proof.
  assert (Hvl : forall r, matches (Cat Void r) s <-> False).
  { intros r. rewrite matches_cat. split; [|done].
    by intros (? & ? & _ & ?%matches_void & _). }
  assert (Hvr : forall r, matches (Cat r Void) s <-> False).
  { intros r. rewrite matches_cat. split; [|done].
    by intros (? & ? & _ & _ & ?%matches_void). }
  assert (Hv : matches Void s <-> False).
  { split; [apply matches_void|done]. }
  assert (He : forall r, matches r s <-> matches (Cat Eps r) s).
  { intros r. rewrite matches_cat. split.
    - intros H. exists [], s. repeat split; [constructor|done].
    - by intros (? & ? & -> & ->%matches_eps & ?). }
  destruct r1, r2; cbn [cat];
    rewrite ?Hvl, ?Hvr, ?Hv; try done; apply He.
Qed.

Lemma alt_spec r1 r2 s : matches (alt r1 r2) s <-> matches (Alt r1 r2) s.
Proof.
  rewrite matches_alt.
  assert (Hv : matches Void s <-> False).
  { split; [apply matches_void|done]. }
  destruct r1, r2; cbn [alt]; rewrite ?matches_alt, ?Hv; tauto.
Qed.

Lemma deriv_spec c r s : matches (deriv c r) s <-> matches r (c :: s).
Proof.
  revert s.
  assert (Hone : forall r s,
             match r with Chr _ | Dot | Cls _ _ => True | _ => False end ->
             matches (if accepts r c then Eps else Void) s
             <-> matches r (c :: s)).
  { intros r0 s Hr. rewrite (matches_single r0) by done.
    destruct (accepts r0 c) eqn:E.
    - rewrite matches_eps. split.
      + intros ->. by exists c.
      + by intros (d & [= _ ->] & _).
    - split; [by intros ?%matches_void|].
      intros (d & [= <- _] & Hd). congruence. }
  induction r as [| | | | |r1 IH1 r2 IH2|r1 IH1 r2 IH2|r IH]; intros s;
    cbn [deriv]; try (by apply Hone).
  - split; [by intros ?%matches_void|inversion 1].
  - split; [by intros ?%matches_void|inversion 1].
  - assert (Hcat : matches (cat (deriv c r1) r2) s
                   <-> exists s1 s2, s = s1 ++ s2
                                     /\ matches r1 (c :: s1) /\ matches r2 s2).
    { rewrite cat_spec, matches_cat.
      split; intros (s1 & s2 & E & H1 & H2); exists s1, s2;
        repeat split; try done; by apply IH1. }
    rewrite (matches_cat r1 r2 (c :: s)).
    destruct (nullable r1) eqn:En.
    + rewrite alt_spec, matches_alt, Hcat, IH2. split.
      * intros [(s1 & s2 & -> & H1 & H2)|H2].
        -- by exists (c :: s1), s2.
        -- exists [], (c :: s). repeat split; [|done].
           by apply nullable_spec.
      * intros (s1 & s2 & E & H1 & H2). destruct s1 as [|d s1].
        -- right. cbn in E. by rewrite E.
        -- left. injection E as <- ->. eauto.
    + rewrite Hcat. split.
      * intros (s1 & s2 & -> & H1 & H2). by exists (c :: s1), s2.
      * intros (s1 & s2 & E & H1 & H2). destruct s1 as [|d s1].
        -- apply nullable_spec in H1. congruence.
        -- injection E as <- ->. eauto.
  - by rewrite alt_spec, !matches_alt, IH1, IH2.
  - rewrite cat_spec, matches_cat. split.
    + intros (s1 & s2 & -> & H1 & H2). apply IH in H1.
      change (c :: s1 ++ s2) with ((c :: s1) ++ s2). by constructor.
    + intros (s1 & s2 & -> & H1 & H2)%matches_star_cons.
      exists s1, s2. repeat split; [by apply IH|done].
Qed.

(** [re_match] succeeds exactly when a prefix of the string is in the
    language of the pattern. *)
Lemma re_match_spec r s :
  re_match r s = true <-> exists p q, s = p ++ q /\ matches r p.
Proof.
  revert r. induction s as [|c t IH]; intros r; cbn [re_match].
  - rewrite orb_false_r, nullable_spec. split.
    + intros H. by exists [], [].
    + intros (p & q & E & H). symmetry in E.
      by apply app_eq_nil in E as [-> _].
  - rewrite orb_true_iff, nullable_spec, IH. split.
    + intros [H|(p & q & -> & H)].
      * by exists [], (c :: t).
      * exists (c :: p), q. split; [done|]. by apply deriv_spec.
    + intros (p & q & E & H). destruct p as [|d p]; [by left|].
      right. injection E as <- ->. exists p, q. split; [done|].
      by apply deriv_spec.
Qed.

(** [re_search] succeeds exactly when some substring of the string is in
    the language of the pattern. *)
Lemma re_search_spec r s :
  re_search r s = true <-> exists a p q, s = a ++ p ++ q /\ matches r p.
Proof.
  induction s as [|c t IH]; cbn [re_search].
  - rewrite orb_false_r, re_match_spec. split.
    + intros (p & q & E & H). by exists [], p, q.
    + intros (a & p & q & E & H). symmetry in E.
      apply app_eq_nil in E as [-> E]. by exists p, q.
  - rewrite orb_true_iff, re_match_spec, IH. split.
    + intros [(p & q & E & H)|(a & p & q & -> & H)].
      * by exists [], p, q.
      * by exists (c :: a), p, q.
    + intros (a & p & q & E & H). destruct a as [|d a].
      * left. by exists p, q.
      * right. injection E as <- ->. by exists a, p, q.
Qed.

(** ** The monad and the loops *)

Section ProgramFacts.
Context `{Env}.

Lemma keeps_ret {A} (a : A) : keeps_self (ret a).
Proof. by intros s. Qed.

Lemma keeps_raise {A} e : keeps_self (raise (A:=A) e).
Proof. by intros s. Qed.

Lemma keeps_gets {A} (f : state -> A) : keeps_self (gets f).
Proof. by intros s. Qed.

Lemma keeps_ask {A} (f : world -> A) : keeps_self (ask f).
Proof. by intros s. Qed.

Lemma keeps_call {A} (f : world -> world * (exn + A)) : keeps_self (call f).
Proof. intros s. unfold call. by destruct (f (the_world s)). Qed.

Lemma keeps_bind {A B} (m : M state A) (k : A -> M state B) :
  keeps_self m -> (forall a, keeps_self (k a)) -> keeps_self (bind m k).
Proof.
  intros Hm Hk s. unfold bind. specialize (Hm s).
  destruct (m s) as [s1 [e|a]]; cbn in *; [done|].
  destruct (Hk a s1) as (-> & -> & ->). done.
Qed.

Lemma keeps_try {A} (m : M state A) (h : exn -> M state A) :
  keeps_self m -> (forall e, keeps_self (h e)) -> keeps_self (try_except m h).
Proof.
  intros Hm Hh s. unfold try_except. specialize (Hm s).
  destruct (m s) as [s1 [e|a]]; cbn in *; [|done].
  destruct (Hh e s1) as (-> & -> & ->). done.
Qed.

Ltac keeps :=
  repeat first
    [ apply keeps_ret | apply keeps_raise | apply keeps_gets
    | apply keeps_ask | apply keeps_call
    | apply keeps_bind; [|intros ?]
    | apply keeps_try; [|intros ?]
    | match goal with
      | |- keeps_self (if ?b then _ else _) => destruct b
      | |- keeps_self (match ?x with _ => _ end) => destruct x
      end ].

Lemma keeps_get_video_info url : keeps_self (get_video_info url).
Proof. unfold get_video_info. keeps. Qed.

Lemma keeps_get_playlist_info url : keeps_self (get_playlist_info url).
Proof. unfold get_playlist_info. keeps. Qed.

(** [download_audio] leaves the fields of the instance alone and logs
    exactly one attempt, with the output directory in force. *)
Lemma download_audio_frame url name s :
  self_output_dir (download_audio url name s).1 = self_output_dir s
  /\ self_ydl_opts (download_audio url name s).1 = self_ydl_opts s
  /\ log (download_audio url name s).1
     = log s ++ [EvDownload (self_output_dir s) url].
Proof.
  unfold download_audio.
  match goal with
  | |- context [bind (gets self_output_dir) ?k] => set (rest := k)
  end.
  change (bind (gets self_output_dir) rest s) with (rest (self_output_dir s) s).
  subst rest. cbv beta.
  match goal with
  | |- context [bind (modify ?f) ?k] => set (rest := k); set (g := f)
  end.
  change (bind (modify g) rest s) with (rest tt (g s)).
  assert (Hk : keeps_self (rest tt)).
  { subst rest. cbv beta. pose proof keeps_get_video_info. keeps. }
  destruct (Hk (g s)) as (-> & -> & ->). by subst g.
Qed.

(** *** The result entries *)

Lemma successes_app {K} (a b : list (download_result K)) :
  successes (a ++ b) = (successes a + successes b)%nat.
Proof. unfold successes. by rewrite filter_app, length_app. Qed.


Lemma successes_failures {K} (rs : list (download_result K)) :
  (successes rs + failures rs = length rs)%nat.
Proof.
  unfold successes, failures. induction rs as [|r rs IH]; [done|].
  rewrite !filter_cons. repeat case_decide; cbn; try lia;
    destruct (is_success r); congruence.
Qed.

Lemma item_record_of {K} (k : K) outcome : item (record_of k outcome) = k.
Proof. by destruct outcome. Qed.


(** *** One turn of the loop of [download_playlist] *)

Lemma time_sleep_run delay s :
  time_sleep delay s
  = match sleep delay (the_world s) with
    | (w, inr _) => (record_event (EvSleep delay) (set_world w s), inr tt)
    | (w, inl e) => (set_world w s, inl e)
    end.
Proof.
  unfold time_sleep, bind, call, modify.
  by destruct (sleep delay (the_world s)) as [w [e|[]]].
Qed.

Lemma time_sleep_frame delay s :
  self_output_dir (time_sleep delay s).1 = self_output_dir s
  /\ self_ydl_opts (time_sleep delay s).1 = self_ydl_opts s
  /\ log (time_sleep delay s).1
     = log s ++ match (time_sleep delay s).2 with
                | inr _ => [EvSleep delay]
                | inl _ => []
                end.
Proof.
  rewrite time_sleep_run.
  destruct (sleep delay (the_world s)) as [w [e|[]]]; cbn; by rewrite ?app_nil_r.
Qed.

Lemma playlist_item_run delay total i v l s :
  playlist_item delay total i v (l, s)
  = let out := download_audio (v_url v) None s in
    match out.2 with
    | inl e => ((append_result (record_of v (inl e)) l, out.1), inr tt)
    | inr p =>
        let l1 := count_success (append_result (record_of v (inr p)) l) in
        if is_positive delay && (i <? total)%nat then
          let slept := time_sleep delay out.1 in
          match slept.2 with
          | inr _ => ((l1, slept.1), inr tt)
          | inl e => ((append_result (record_of v (inl e)) l1, slept.1), inr tt)
          end
        else ((l1, out.1), inr tt)
    end.
Proof.
  unfold playlist_item, try_except, bind, lift, assign, ret. cbn zeta.
  destruct (download_audio (v_url v) None s) as [s1 [e|p]]; [reflexivity|].
  cbn [fst snd].
  destruct (is_positive delay && (i <? total)%nat); [|reflexivity].
  by destruct (time_sleep delay s1) as [s2 [e|[]]].
Qed.

Lemma add_turns_nil l : add_turns [] l = l.
Proof.
  destruct l. unfold add_turns, downloads_done. cbn.
  by rewrite app_nil_r, Nat.add_0_r.
Qed.

Lemma downloads_done_cons t ts :
  downloads_done (t :: ts)
  = ((if downloaded t then 1 else 0) + downloads_done ts)%nat.
Proof.
  unfold downloads_done. rewrite filter_cons.
  destruct (downloaded t); by case_decide.
Qed.

Lemma add_turns_cons t ts l :
  add_turns (t :: ts) l
  = add_turns ts
      {| original_output_dir := original_output_dir l;
         results := results l ++ turn_entries t;
         successful_downloads :=
           successful_downloads l + (if downloaded t then 1 else 0) |}.
Proof.
  unfold add_turns. cbn [original_output_dir results successful_downloads].
  rewrite downloads_done_cons, bind_cons, !app_assoc, Nat.add_assoc. done.
Qed.

(** The loop is its turns. *)
Lemma playlist_loop_run delay total vs i l s :
  for_each (playlist_item delay total) i vs (l, s)
  = ((add_turns (playlist_turns delay total i vs s).1 l,
      (playlist_turns delay total i vs s).2), inr tt).
Proof.
  revert i l s. induction vs as [|v vs IH]; intros i l s.
  - cbn. by rewrite add_turns_nil.
  - cbn [for_each playlist_turns]. unfold bind at 1.
    rewrite playlist_item_run. cbv zeta. cbn [fst snd].
    rewrite add_turns_cons.
    destruct (download_audio (v_url v) None s) as [s1 [e|p]]; cbn [fst snd].
    + rewrite IH. unfold append_result, downloaded. cbn. by rewrite Nat.add_0_r.
    + destruct (is_positive delay && (i <? total)%nat).
      * destruct (time_sleep delay s1) as [s2 [e|[]]]; cbn [fst snd];
          rewrite IH; unfold append_result, count_success, downloaded; cbn;
          by rewrite <- ?app_assoc.
      * rewrite IH. unfold append_result, count_success, downloaded. by cbn.
Qed.

(** What the turns are and what they leave behind. *)
Lemma playlist_turns_spec delay total vs i s :
  let run := playlist_turns delay total i vs s in
  t_video <$> run.1 = vs
  /\ self_output_dir run.2 = self_output_dir s
  /\ self_ydl_opts run.2 = self_ydl_opts s
  /\ log run.2 = log s ++ (run.1 ≫= turn_events delay (self_output_dir s))
  /\ Forall (fun t => exists st,
               t_download t = (download_audio (v_url (t_video t)) None st).2) run.1.
Proof.
  cbv zeta. revert i s. induction vs as [|v vs IH]; intros i s.
  - cbn. rewrite app_nil_r. by split_and!.
  - cbn [playlist_turns]. cbv zeta. cbn [fst snd].
    destruct (download_audio_frame (v_url v) None s) as (Hd & Ho & Hl).
    set (out := download_audio (v_url v) None s) in *.
    destruct (time_sleep_frame delay out.1) as (Hd1 & Ho1 & Hl1).
    set (slept := time_sleep delay out.1) in *.
    set (due := match out.2 with
                | inr _ => is_positive delay && (i <? total)%nat
                | inl _ => false
                end).
    destruct (IH (S i) (if due then slept.1 else out.1))
      as (Hv & Hd' & Ho' & Hl' & Hrec).
    assert (Hs1 : self_output_dir (if due then slept.1 else out.1) = self_output_dir s
                  /\ self_ydl_opts (if due then slept.1 else out.1) = self_ydl_opts s).
    { destruct due; split; congruence. }
    destruct Hs1 as [Hd2 Ho2].
    split_and!.
    + by rewrite fmap_cons, Hv.
    + congruence.
    + congruence.
    + rewrite Hl', Hd2, bind_cons. unfold turn_events at 2. cbn [t_video t_pause].
      rewrite app_assoc. f_equal.
      destruct due.
      * rewrite Hl1, Hl, <- app_assoc. cbn [app]. by destruct slept.2.
      * by rewrite Hl.
    + constructor; [by exists s|done].
Qed.

(** *** Reading the turns *)

Lemma successes_turn_entries ts :
  successes (ts ≫= turn_entries) = downloads_done ts.
Proof.
  induction ts as [|t ts IH]; [done|].
  rewrite bind_cons, successes_app, IH, downloads_done_cons. f_equal.
  unfold turn_entries, downloaded, successes.
  destruct t as [v [e|p] [| |e']]; by cbn.
Qed.

Lemma length_turn_entries ts :
  length (ts ≫= turn_entries) = (length ts + pauses_raised ts)%nat.
Proof.
  unfold pauses_raised. induction ts as [|t ts IH]; [done|].
  rewrite bind_cons, length_app, IH, filter_cons.
  destruct t as [v d [| |e']]; cbn; case_decide; cbn; try done; lia.
Qed.

Lemma attempted_turn_events delay dir ts :
  attempted_urls (ts ≫= turn_events delay dir) = v_url <$> (t_video <$> ts).
Proof.
  unfold attempted_urls. induction ts as [|t ts IH]; [done|].
  rewrite bind_cons, omap_app, IH, !fmap_cons. unfold turn_events.
  cbn [omap list_omap]. by destruct (t_pause t).
Qed.


Lemma suspensions_turn_events delay dir ts :
  Forall (fun d => d = delay) (suspensions (ts ≫= turn_events delay dir)).
Proof.
  unfold suspensions. induction ts as [|t ts IH]; [constructor|].
  rewrite bind_cons, omap_app. apply Forall_app. split; [|done].
  unfold turn_events. cbn [omap list_omap]. destruct (t_pause t); by repeat constructor.
Qed.

(** When no suspension raises (the clock accepts the delay, or the
    delay is not positive and none is called), every turn leaves one
    result entry, and the log is the one read off the entries. *)
Lemma playlist_turns_quiet delay total vs i s :
  sleep_returns delay \/ is_positive delay = false ->
  let ts := (playlist_turns delay total i vs s).1 in
  let rs := (fun t => record_of (t_video t) (t_download t)) <$> ts in
  ts ≫= turn_entries = rs
  /\ pauses_raised ts = 0%nat
  /\ ts ≫= turn_events delay (self_output_dir s)
     = item_events delay total (self_output_dir s) i rs.
Proof.
  intros Hq. cbv zeta. revert i s. induction vs as [|v vs IH]; intros i s; [done|].
  cbn [playlist_turns]. cbv zeta. cbn [fst snd].
  destruct (download_audio_frame (v_url v) None s) as (Hd & _).
  set (out := download_audio (v_url v) None s) in *.
  destruct (time_sleep_frame delay out.1) as (Hd1 & _).
  set (due := match out.2 with
              | inr _ => is_positive delay && (i <? total)%nat
              | inl _ => false
              end).
  assert (Hdue : due = is_success (record_of v out.2) && is_positive delay
                       && (i <? total)%nat).
  { subst due. by destruct out.2. }
  assert (Hp : (if due
                then match (time_sleep delay out.1).2 with
                     | inr _ => Paused
                     | inl e => PauseRaised e
                     end
                else NoPause) = if due then Paused else NoPause).
  { destruct due eqn:Edue; [|done].
    destruct Hq as [Hs|Hn].
    - rewrite time_sleep_run. specialize (Hs (the_world out.1)).
      by destruct (sleep delay (the_world out.1)) as [w [e|[]]].
    - rewrite Hn in Hdue. by rewrite andb_false_r in Hdue. }
  rewrite Hp.
  destruct (IH (S i) (if due then (time_sleep delay out.1).1 else out.1))
    as (He & Hr & Hev).
  assert (Hd2 : self_output_dir (if due then (time_sleep delay out.1).1 else out.1)
                = self_output_dir s).
  { destruct due; congruence. }
  rewrite Hd2 in Hev.
  split_and!.
  - rewrite bind_cons, He, fmap_cons. unfold turn_entries at 1.
    cbn [t_video t_download t_pause]. by destruct due.
  - unfold pauses_raised in *. rewrite filter_cons. unfold pause_raised at 1.
    cbn [t_pause]. destruct due; by case_decide.
  - rewrite bind_cons, Hev, fmap_cons. cbn [item_events t_video t_download].
    rewrite item_record_of, <- Hdue. unfold turn_events at 1.
    cbn [t_video t_pause]. by destruct due.
Qed.

(** *** The loop of [download_multiple] *)

Lemma multiple_item_run i url l s :
  multiple_item i url (l, s)
  = let out := download_audio url None s in
    ((l ++ [record_of url out.2], out.1), inr tt).
Proof.
  unfold multiple_item, try_except, bind, lift, assign. cbn zeta.
  destruct (download_audio url None s) as [s1 [e|p]]; reflexivity.
Qed.

Lemma multiple_loop_spec urls i l s :
  exists new s',
    for_each multiple_item i urls (l, s) = ((l ++ new, s'), inr tt)
    /\ item <$> new = urls
    /\ self_output_dir s' = self_output_dir s
    /\ self_ydl_opts s' = self_ydl_opts s
    /\ log s' = log s ++ (EvDownload (self_output_dir s) <$> urls)
    /\ Forall (recorded (fun url => url)) new.
Proof.
  revert i l s. induction urls as [|url urls IH]; intros i l s.
  - exists [], s. cbn. by rewrite !app_nil_r.
  - cbn [for_each]. unfold bind at 1. rewrite multiple_item_run. cbn zeta.
    destruct (download_audio_frame url None s) as (Hd & Ho & Hl).
    set (out := download_audio url None s) in *.
    assert (Hrec : recorded (fun url => url) (record_of url out.2)).
    { exists s. by rewrite item_record_of. }
    clearbody out.
    destruct (IH (S i) (l ++ [record_of url out.2]) out.1)
      as (new & s' & -> & Hit & Hd' & Ho' & Hl' & Hall).
    exists (record_of url out.2 :: new), s'.
    split_and!; [|  |congruence|congruence| |by constructor].
    + by rewrite <- app_assoc.
    + by rewrite fmap_cons, Hit, item_record_of.
    + rewrite Hl', Hl, Hd, <- app_assoc. done.
Qed.

Lemma download_multiple_spec urls s :
  exists rs s',
    download_multiple urls s = (s', inr rs)
    /\ item <$> rs = urls
    /\ self_output_dir s' = self_output_dir s
    /\ self_ydl_opts s' = self_ydl_opts s
    /\ log s' = log s ++ (EvDownload (self_output_dir s) <$> urls)
    /\ Forall (recorded (fun url => url)) rs.
Proof.
  destruct (multiple_loop_spec urls 1 [] s) as (new & s' & E & Hrest).
  exists new, s'. split; [|done].
  unfold download_multiple, with_frame, bind. by rewrite E.
Qed.



(** *** [download_playlist] as a whole *)

Lemma bind_lift_run {L A B} (m : M state A) (k : A -> M (L * state) B) l s :
  bind (lift m) k (l, s)
  = match m s with
    | (s', inr a) => k a (l, s')
    | (s', inl e) => ((l, s'), inl e)
    end.
Proof. unfold bind, lift. by destruct (m s) as [? [|]]. Qed.

Lemma bind_assign_run {L B} (f : L -> L) (k : unit -> M (L * state) B) l s :
  bind (assign f) k (l, s) = k tt (f l, s).
Proof. reflexivity. Qed.

Lemma bind_local_run {L A B} (f : L -> A) (k : A -> M (L * state) B) l s :
  bind (local f) k (l, s) = k (f l) (l, s).
Proof. reflexivity. Qed.

Lemma redirect_output_run dir s :
  redirect_output dir s
  = (set_ydl_opts (<[py "outtmpl" := outtmpl_of dir]> (self_ydl_opts s))
                  (set_output_dir dir s), inr tt).
Proof. reflexivity. Qed.

(** The four ways a call of [download_playlist] can go. *)
Lemma download_playlist_cases url max_videos delay s :
  let out := download_playlist url max_videos delay s in
  (is_playlist_url url = false
   /\ out = (s, inl (ValueError (py "URL is not a valid YouTube playlist"))))
  \/ (is_playlist_url url = true
      /\ exists s0 e,
          get_playlist_info url s = (s0, inl e)
          /\ out = (s0, inl (Exception (py "Playlist download failed: " ++ exn_str e))))
  \/ (is_playlist_url url = true
      /\ exists s0 info w1 e,
          get_playlist_info url s = (s0, inr info)
          /\ mkdir (joinpath (self_output_dir s0) (_sanitize_filename (pi_title info)))
                   (the_world s0) = (w1, inl e)
          /\ out = (set_world w1 s0,
                    inl (Exception (py "Playlist download failed: " ++ exn_str e))))
  \/ (is_playlist_url url = true
      /\ exists s0 info w1 rep st,
          let videos := limit_videos max_videos (pi_videos info) in
          let dir := joinpath (self_output_dir s) (_sanitize_filename (pi_title info)) in
          let ts := (playlist_turns delay (length videos) 1 videos st).1 in
          get_playlist_info url s = (s0, inr info)
          /\ mkdir (joinpath (self_output_dir s0) (_sanitize_filename (pi_title info)))
                   (the_world s0) = (w1, inr tt)
          /\ out.2 = inr rep
          /\ self_output_dir st = dir
          /\ rp_playlist_info rep = info
          /\ rp_results rep = ts ≫= turn_entries
          /\ rp_total_videos rep = length videos
          /\ rp_successful_downloads rep = downloads_done ts
          /\ rp_output_directory rep = path_str dir
          /\ self_output_dir out.1 = self_output_dir s
          /\ self_ydl_opts out.1
             = <[py "outtmpl" := outtmpl_of (self_output_dir s)]>
                 (<[py "outtmpl" := outtmpl_of dir]> (self_ydl_opts s))
          /\ log out.1 = log s ++ (ts ≫= turn_events delay dir)).
Proof.
  intros out. assert (Hout : out = download_playlist url max_videos delay s) by done.
  clearbody out. unfold download_playlist in Hout.
  destruct (is_playlist_url url) eqn:Eurl; cbn [negb] in Hout; [|by left].
  right.
  unfold with_frame, try_except in Hout. cbv beta in Hout.
  rewrite bind_lift_run in Hout.
  destruct (keeps_get_playlist_info url s) as (Hd0 & Ho0 & Hl0).
  destruct (get_playlist_info url s) as [s0 [e|info]] eqn:Einfo;
    cbn [fst snd] in Hd0, Ho0, Hl0.
  { rewrite bind_local_run in Hout. left. split; [done|]. by exists s0, e. }
  right.
  cbv beta iota in Hout.
  rewrite bind_lift_run in Hout. unfold gets at 1 in Hout. cbv beta iota in Hout.
  rewrite bind_lift_run in Hout. unfold call at 1 in Hout. cbv beta iota in Hout.
  destruct (mkdir _ (the_world s0)) as [w1 [e|[]]] eqn:Emk.
  { rewrite bind_local_run in Hout. left. split; [done|]. by exists s0, info, w1, e. }
  right. split; [done|].
  cbv beta iota in Hout.
  rewrite bind_lift_run in Hout. unfold gets at 1 in Hout. cbv beta iota in Hout.
  rewrite bind_assign_run, bind_lift_run, redirect_output_run, bind_assign_run in Hout.
  unfold bind at 1 in Hout. rewrite playlist_loop_run in Hout.
  cbn [self_output_dir self_ydl_opts set_world] in Hout. rewrite !Hd0 in Hout.
  match type of Hout with
  | context [playlist_turns delay ?n 1 ?vs ?st] =>
      destruct (playlist_turns_spec delay n vs 1 st) as (_ & Hd' & Ho' & Hl' & _);
      set (run := playlist_turns delay n 1 vs st) in *;
      assert (Hst : self_output_dir st
                    = joinpath (self_output_dir s) (_sanitize_filename (pi_title info)))
        by reflexivity;
      exists s0, info, w1; eexists; exists st
  end.
  rewrite bind_lift_run, redirect_output_run, !bind_local_run in Hout.
  unfold ret in Hout. cbv beta iota zeta in Hout. subst out.
  cbn [self_output_dir self_ydl_opts log the_world set_world
       set_ydl_opts set_output_dir] in Hd', Ho', Hl'.
  cbv zeta.
  split_and!; [done|exact Emk|reflexivity|exact Hst|..];
    cbn [fst snd rp_playlist_info rp_results rp_successful_downloads
         rp_total_videos rp_output_directory set_ydl_opts set_output_dir
         set_world self_output_dir self_ydl_opts log add_turns results
         successful_downloads reset_results bind_original];
    rewrite ?app_nil_l; try done.
  - by rewrite Ho', Ho0.
  - by rewrite Hl', Hl0.
Qed.

(** What holds of a call that returns a report and of one that raises. *)
Lemma download_playlist_spec url max_videos delay s :
  let out := download_playlist url max_videos delay s in
  match out.2 with
  | inl e =>
      self_output_dir out.1 = self_output_dir s
      /\ self_ydl_opts out.1 = self_ydl_opts s
      /\ log out.1 = log s
  | inr rep =>
      let info := rp_playlist_info rep in
      let videos := limit_videos max_videos (pi_videos info) in
      let dir := joinpath (self_output_dir s) (_sanitize_filename (pi_title info)) in
      is_playlist_url url = true
      /\ (get_playlist_info url s).2 = inr info
      /\ rp_total_videos rep = length videos
      /\ rp_output_directory rep = path_str dir
      /\ self_output_dir out.1 = self_output_dir s
      /\ self_ydl_opts out.1
         = <[py "outtmpl" := outtmpl_of (self_output_dir s)]>
             (<[py "outtmpl" := outtmpl_of dir]> (self_ydl_opts s))
      /\ exists st,
          let ts := (playlist_turns delay (length videos) 1 videos st).1 in
          self_output_dir st = dir
          /\ rp_results rep = ts ≫= turn_entries
          /\ rp_successful_downloads rep = downloads_done ts
          /\ log out.1 = log s ++ (ts ≫= turn_events delay dir)
  end.
Proof.
  cbn zeta.
  destruct (download_playlist_cases url max_videos delay s)
    as [[_ ->]|[(_ & s0 & e & Hi & ->)|[(_ & s0 & info & w1 & e & Hi & _ & ->)
       |(Hu & s0 & info & w1 & rep & st & Hi & _ & -> & Hst & <- & Hrest)]]];
    cbn [fst snd].
  - done.
  - destruct (keeps_get_playlist_info url s) as (Hd0 & Ho0 & Hl0).
    by rewrite Hi in Hd0, Ho0, Hl0.
  - destruct (keeps_get_playlist_info url s) as (Hd0 & Ho0 & Hl0).
    by rewrite Hi in Hd0, Ho0, Hl0.
  - rewrite Hi. cbn [snd]. destruct Hrest as (Hr & Ht & Hs & Ho & Hd & Hy & Hl).
    split_and!; try done. by exists st.
Qed.

(** The turns of a run, read one by one. *)
Lemma playlist_turns_videos delay total vs i s :
  t_video <$> (playlist_turns delay total i vs s).1 = vs.
Proof. apply (playlist_turns_spec delay total vs i s). Qed.

Lemma playlist_turns_length delay total vs i s :
  length (playlist_turns delay total i vs s).1 = length vs.
Proof.
  pose proof (playlist_turns_videos delay total vs i s) as Hv.
  apply (f_equal length) in Hv. by rewrite length_fmap in Hv.
Qed.


End ProgramFacts.

(** ** Reading the log *)

Section LogFacts.
Context `{Env}.

Lemma new_events_app (s s' : state) evs :
  log s' = log s ++ evs -> new_events s s' = evs.
Proof. intros E. unfold new_events. by rewrite E, drop_app_length. Qed.

Lemma attempted_item_events delay total dir i rs :
  attempted_urls (item_events delay total dir i rs) = v_url <$> (item <$> rs).
Proof.
  revert i. induction rs as [|r rs IH]; intros i; [done|].
  cbn [item_events]. unfold attempted_urls in *.
  rewrite !fmap_cons. cbn [omap list_omap]. rewrite omap_app, IH.
  by destruct (is_success r && is_positive delay && (i <? total)%nat).
Qed.

Lemma attempt_dirs_item_events delay total dir i rs :
  Forall (fun d => d = dir) (attempt_dirs (item_events delay total dir i rs)).
Proof.
  revert i. induction rs as [|r rs IH]; intros i; [constructor|].
  cbn [item_events]. unfold attempt_dirs in *. cbn [omap list_omap].
  rewrite omap_app. constructor; [done|]. apply Forall_app. split; [|apply IH].
  destruct (is_success r && is_positive delay && (i <? total)%nat); by cbn.
Qed.



End LogFacts.

(** ** The claims on classification *)

(** C1.  The dispatch of [main] together with the entry check of the
    method it calls sorts every URL into exactly one of three outcomes:
    a playlist download (exactly when the URL has the playlist shape), a
    single-video download (exactly when it has not, the playlist flag is
    off and the URL has the video shape), or a [ValueError] (in
    particular whenever the URL has neither shape).  No URL is accepted
    as both kinds. *)
Theorem classification_exclusive_and_exhaustive (playlist_flag : bool) (url : pystr) :
  (classify_locator playlist_flag url = inr Collection
   <-> is_playlist_url url = true)
  /\ (classify_locator playlist_flag url = inr SingleItem
      <-> playlist_flag = false /\ is_playlist_url url = false
          /\ is_valid_youtube_url url = true)
  /\ ((exists msg, classify_locator playlist_flag url = inl (ValueError msg))
      <-> is_playlist_url url = false
          /\ (playlist_flag = true \/ is_valid_youtube_url url = false))
  /\ ~ (classify_locator playlist_flag url = inr Collection
        /\ classify_locator playlist_flag url = inr SingleItem).
Proof.
  unfold classify_locator.
  destruct playlist_flag, (is_playlist_url url), (is_valid_youtube_url url);
    cbn [orb negb]; split_and!;
    try (split; [intros ?|intros ?]); try intros [? ?];
    repeat match goal with
           | H : exists _, _ |- _ => destruct H
           | H : _ /\ _ |- _ => destruct H
           | H : _ \/ _ |- _ => destruct H
           end;
    try discriminate; try done; eauto.
Qed.

Example classification_examples :
  classify_locator false (py "https://www.youtube.com/watch?v=abc12345678")
  = inr SingleItem
  /\ classify_locator false (py "https://www.youtube.com/playlist?list=PL123")
     = inr Collection
  /\ classify_locator false (py "https://www.youtube.com/watch?v=abc12345678&list=PL123")
     = inr Collection
  /\ classify_locator false (py "https://vimeo.com/12345")
     = inl (ValueError (py "Invalid YouTube URL provided"))
  /\ classify_locator true (py "https://www.youtube.com/watch?v=abc12345678")
     = inl (ValueError (py "URL is not a valid YouTube playlist")).
Proof. repeat split; vm_compute; reflexivity. Qed.

Section Claims.
Context `{Env}.

(** The entry checks of the two download methods are the ones the
    classification uses. *)
Lemma download_playlist_rejects url max_videos delay s :
  is_playlist_url url = false ->
  download_playlist url max_videos delay s
  = (s, inl (ValueError (py "URL is not a valid YouTube playlist"))).
Proof. intros E. unfold download_playlist. by rewrite E. Qed.

Lemma download_audio_rejects url name s :
  is_valid_youtube_url url = false ->
  (download_audio url name s).2 = inl (ValueError (py "Invalid YouTube URL provided")).
Proof. intros E. unfold download_audio, bind, gets, modify. by rewrite E. Qed.

(** What [main] does with a URL is what [classify_locator] says: a
    rejected URL makes the method called raise the [ValueError] at once,
    an accepted one is handed to the download of its kind. *)
Lemma main_follows_classification args s :
  match classify_locator (a_playlist args) (a_url args) with
  | inl e => (main_download args s).2 = inl e
  | inr Collection =>
      is_playlist_url (a_url args) = true
      /\ main_download args s
         = bind (download_playlist (a_url args) (a_max_videos args) (a_delay args))
                (fun result => ret (inl result)) s
  | inr SingleItem =>
      is_valid_youtube_url (a_url args) = true
      /\ main_download args s
         = bind (download_audio (a_url args) (a_output args))
                (fun result => ret (inr result)) s
  end.
Proof.
  unfold classify_locator, main_download.
  destruct (a_playlist args), (is_playlist_url (a_url args)) eqn:Ep;
    cbn [orb negb]; try done.
  - unfold bind. by rewrite download_playlist_rejects.
  - destruct (is_valid_youtube_url (a_url args)) eqn:Ev; cbn [negb]; [done|].
    unfold bind at 1.
    pose proof (download_audio_rejects (a_url args) (a_output args) s Ev) as Hr.
    destruct (download_audio (a_url args) (a_output args) s) as [s1 [e|p]];
      cbn [snd] in *; congruence.
Qed.

(** A URL of neither shape ends [main] with exit status 1. *)
Lemma main_exits_on_unrecognised_url args w e :
  classify_locator (a_playlist args) (a_url args) = inl e ->
  main args w = 1%Z.
Proof.
  intros Hc. unfold main. destruct (init _ w) as [?|s]; [done|].
  pose proof (main_follows_classification args s) as Hm. rewrite Hc in Hm.
  by rewrite Hm.
Qed.

(** The download methods keep the instance invariant. *)
Lemma download_audio_keeps_template url name s :
  template_in_step s -> template_in_step (download_audio url name s).1.
Proof.
  destruct (download_audio_frame url name s) as (Hd & Ho & _).
  unfold template_in_step. by rewrite Hd, Ho.
Qed.

Lemma download_multiple_keeps_template urls s :
  template_in_step s -> template_in_step (download_multiple urls s).1.
Proof.
  destruct (download_multiple_spec urls s) as (rs & s' & E & _ & Hd & Ho & _).
  rewrite E. unfold template_in_step. cbn [fst]. by rewrite Hd, Ho.
Qed.

(** ** The claims on the playlist descriptor *)

Lemma collect_videos_spec videos entries :
  collect_videos videos entries = videos ++ (entry_video <$> available entries).
Proof.
  revert videos. induction entries as [|[e|] entries IH]; intros videos; cbn.
  - by rewrite app_nil_r.
  - rewrite IH, <- app_assoc. done.
  - apply IH.
Qed.

(** C9 (amended).  For a playlist URL on which the extractor answers,
    [get_playlist_info] fails when the answer has no [entries] key; when
    the key is there it returns, and the videos of the descriptor are
    the entries that are not [None], each turned into a video
    dictionary, in the extractor's order. *)
Theorem playlist_info_skips_null_entries url s w info :
  is_playlist_url url = true ->
  extract_flat_playlist url (the_world s) = (w, inr info) ->
  match pm_entries info with
  | None =>
      (get_playlist_info url s).2
      = inl (Exception (py "Failed to get playlist info: No videos found in playlist"))
  | Some entries =>
      exists descriptor,
        (get_playlist_info url s).2 = inr descriptor
        /\ pi_videos descriptor = entry_video <$> available entries
        /\ pi_video_count descriptor = length (available entries)
  end.
Proof.
  intros Hu Hx. unfold get_playlist_info. rewrite Hu. cbn [negb].
  unfold try_except, bind, call. rewrite Hx.
  destruct (pm_entries info) as [entries|]; [|done].
  eexists. split; [reflexivity|]. cbn.
  rewrite collect_videos_spec. cbn. by rewrite length_fmap.
Qed.

(** ** The claims on [download_playlist] *)

(** C5.  A call that returns a report attempted the first [k] videos of
    the descriptor, in order, when [max_videos = k] with [0 < k < N],
    and all [N] videos, in order, when [max_videos] is absent or not
    positive; the descriptor is the one [get_playlist_info] returned. *)
Theorem playlist_attempts_first_k url max_videos delay s rep :
  (download_playlist url max_videos delay s).2 = inr rep ->
  let videos := pi_videos (rp_playlist_info rep) in
  let attempted :=
    attempted_urls (new_events s (download_playlist url max_videos delay s).1) in
  (get_playlist_info url s).2 = inr (rp_playlist_info rep)
  /\ (forall k, max_videos = Some k -> (0 < k < Z.of_nat (length videos))%Z ->
        attempted = v_url <$> take (Z.to_nat k) videos
        /\ length attempted = Z.to_nat k
        /\ rp_total_videos rep = Z.to_nat k)
  /\ (max_videos = None \/ (exists k, max_videos = Some k /\ (k <= 0)%Z) ->
        attempted = v_url <$> videos
        /\ rp_total_videos rep = length videos).
Proof.
  intros Hrep. cbn zeta.
  pose proof (download_playlist_spec url max_videos delay s) as Hs.
  cbn zeta in Hs. rewrite Hrep in Hs.
  destruct Hs as (_ & Hinfo & Htot & _ & _ & _ & st & _ & _ & _ & Hlog).
  apply new_events_app in Hlog.
  rewrite Hlog, attempted_turn_events, playlist_turns_videos, Htot.
  split; [done|]. split.
  - intros k -> Hk. unfold limit_videos.
    assert ((negb (k =? 0) && (0 <? k))%Z = true) as ->.
    { apply andb_true_iff. split; [apply negb_true_iff|]; lia. }
    rewrite length_fmap, length_take. split_and!; [done|lia|lia].
  - intros [->|(k & -> & Hk)]; unfold limit_videos; [done|].
    assert ((negb (k =? 0) && (0 <? k))%Z = false) as ->.
    { apply andb_false_iff. right. lia. }
    done.
Qed.

(** What the counts of a report are, whatever the suspensions do: the
    success counter is the number of success entries, and the total is
    the number of videos attempted, at most the number of entries.
    When no suspension raises, because the clock accepts the delay or
    the delay is not positive, the total is the number of entries and
    successes and failures add up to it. *)
Theorem report_counts_when_suspensions_return url max_videos delay s rep :
  (download_playlist url max_videos delay s).2 = inr rep ->
  rp_successful_downloads rep = successes (rp_results rep)
  /\ rp_total_videos rep
     = length (attempted_urls (new_events s (download_playlist url max_videos delay s).1))
  /\ (rp_total_videos rep <= length (rp_results rep))%nat
  /\ (sleep_returns delay \/ is_positive delay = false ->
      rp_total_videos rep = length (rp_results rep)
      /\ (rp_successful_downloads rep + failures (rp_results rep))%nat
         = rp_total_videos rep).
Proof.
  intros Hrep.
  pose proof (download_playlist_spec url max_videos delay s) as Hs.
  cbn zeta in Hs. rewrite Hrep in Hs.
  destruct Hs as (_ & _ & Htot & _ & _ & _ & st & _ & Hres & Hsucc & Hlog).
  apply new_events_app in Hlog.
  set (videos := limit_videos max_videos (pi_videos (rp_playlist_info rep))) in *.
  pose proof (playlist_turns_videos delay (length videos) videos 1 st) as Hv.
  pose proof (playlist_turns_length delay (length videos) videos 1 st) as Hlen.
  split_and!.
  - by rewrite Hsucc, Hres, successes_turn_entries.
  - by rewrite Hlog, attempted_turn_events, Hv, length_fmap.
  - rewrite Hres, length_turn_entries, Hlen, Htot. lia.
  - intros Hq.
    destruct (playlist_turns_quiet delay (length videos) videos 1 st Hq)
      as (_ & Hr & _).
    assert (Hlr : rp_total_videos rep = length (rp_results rep)).
    { rewrite Hres, length_turn_entries, Hlen, Hr, Htot. lia. }
    split; [done|].
    rewrite Hlr, Hsucc, Hres, <- successes_turn_entries.
    apply successes_failures.
Qed.




Lemma playlist_restores_self url max_videos delay s :
  template_in_step s ->
  self_output_dir (download_playlist url max_videos delay s).1 = self_output_dir s
  /\ self_ydl_opts (download_playlist url max_videos delay s).1 = self_ydl_opts s.
Proof.
  intros Hinv.
  pose proof (download_playlist_spec url max_videos delay s) as Hs.
  cbn zeta in Hs.
  destruct (download_playlist url max_videos delay s).2 as [e|rep].
  - by destruct Hs as (Hd & Ho & _).
  - destruct Hs as (_ & _ & _ & _ & Hd & Ho & _).
    split; [done|]. rewrite Ho, insert_insert_eq. by apply insert_id.
Qed.


(** The invariant C8 rests on holds of every fresh instance and is kept
    by the download methods. *)
Lemma init_template_in_step output_dir w s :
  init output_dir w = inr s -> template_in_step s.
Proof.
  unfold init. destruct (mkdir _ w) as [w1 [e|[]]]; [done|].
  destruct (match which _ w1 with Some p => Some p | None => _ end); [|done].
  intros [= <-]. unfold template_in_step. cbn [self_ydl_opts self_output_dir].
  rewrite lookup_insert_ne by done. by rewrite lookup_insert_eq.
Qed.

Lemma download_playlist_keeps_template url max_videos delay s :
  template_in_step s ->
  template_in_step (download_playlist url max_videos delay s).1.
Proof.
  intros Hinv.
  destruct (playlist_restores_self url max_videos delay s Hinv) as (Hd & Ho).
  unfold template_in_step. by rewrite Hd, Ho.
Qed.

End Claims.

(** ** The claims at concrete runs *)

Section Demo.
Local Existing Instance demo_env.

(** bring the value a concrete run returns into the context *)
Ltac concrete E :=
  let E' := fresh in
  pose proof E as E'; vm_compute in E'; injection E' as <-.

(** the clock of the concrete world accepts a delay of one second and
    refuses one of ten thousand million *)
Lemma demo_clock_accepts : sleep_returns 1%Q.
Proof. intros w. reflexivity. Qed.

Example demo_clock_refuses w :
  (sleep 10000000000%Q w).2
  = inl (Exception (py "timestamp too large to convert to C _PyTime_t")).
Proof. reflexivity. Qed.

Example demo_start_in_step : template_in_step (demo_start (Some two_entries) []).
Proof. vm_compute. reflexivity. Qed.

(** The name given on the command line loses its [.mp3] wherever it
    stands: the file is saved as [ab.mp3]. *)
Example download_audio_custom_name :
  (download_audio (watch "aaaaaaaaaaa") (Some (py "a.mp3b"))
                  (demo_start None [])).2
  = inr (py "downloads/ab.mp3").
Proof. vm_compute. reflexivity. Qed.



Lemma playlist_attempts_first_k_witness :
  let s := demo_start (Some eight_entries) [] in
  let out := download_playlist demo_url (Some 3%Z) 1%Q s in
  match out.2 with
  | inr rep =>
      length (pi_videos (rp_playlist_info rep)) = 8%nat
      /\ rp_total_videos rep = 3%nat
      /\ attempted_urls (new_events s out.1)
         = [watch "video000001"; watch "video000002"; watch "video000003"]
  | inl _ => False
  end.
Proof.
  cbn zeta.
  destruct (download_playlist demo_url (Some 3%Z) 1%Q
              (demo_start (Some eight_entries) [])).2 as [e|rep] eqn:E.
  { vm_compute in E. discriminate E. }
  destruct (playlist_attempts_first_k _ _ _ _ _ E) as (_ & Hk & _).
  concrete E.
  destruct (Hk 3%Z eq_refl) as (Ha & _ & Ht).
  { vm_compute. split; reflexivity. }
  rewrite Ha, Ht. split_and!; vm_compute; reflexivity.
Defined.

(** C6 fails on the code at a delay the clock refuses: of two videos,
    both downloaded, the first gets a success entry and then, the
    suspension having raised inside the [try] block, a failed entry as
    well.  The report counts two videos and holds three entries, and
    its successes and failures add up to three. *)
Lemma report_miscounts_when_suspension_raises :
  let s := demo_start (Some two_entries) [] in
  let out := download_playlist demo_url None 10000000000%Q s in
  match out.2 with
  | inr rep =>
      rp_total_videos rep = 2%nat
      /\ r_status <$> rp_results rep = [success; failed; success]
      /\ length (rp_results rep) <> rp_total_videos rep
      /\ (rp_successful_downloads rep + failures (rp_results rep))%nat
         <> rp_total_videos rep
  | inl _ => False
  end.
Proof.
  cbn zeta. vm_compute. split_and!; [reflexivity|reflexivity|discriminate|discriminate].
Qed.

(** C7 fails on the code at the same run: no download fails, both
    videos are attempted, and the results hold two entries for the
    first video, the second of them a failure whose message is that of
    the suspension. *)
Lemma two_entries_for_one_video_when_suspension_raises :
  let s := demo_start (Some two_entries) [] in
  let out := download_playlist demo_url None 10000000000%Q s in
  attempted_urls (new_events s out.1) = [watch "aaaaaaaaaaa"; watch "bbbbbbbbbbb"]
  /\ suspensions (new_events s out.1) = []
  /\ match out.2 with
     | inr rep =>
         v_url <$> (item <$> rp_results rep)
         = [watch "aaaaaaaaaaa"; watch "aaaaaaaaaaa"; watch "bbbbbbbbbbb"]
         /\ error <$> rp_results rep
            = [None; Some (py "timestamp too large to convert to C _PyTime_t"); None]
     | inl _ => False
     end.
Proof.
  cbn zeta. split_and!; [vm_compute; reflexivity..|].
  vm_compute. split; reflexivity.
Qed.

Lemma report_counts_when_suspensions_return_witness :
  let s := demo_start (Some three_entries) [watch "bbbbbbbbbbb"] in
  let out := download_playlist demo_url None 1%Q s in
  match out.2 with
  | inr rep =>
      rp_successful_downloads rep = 2%nat
      /\ rp_total_videos rep = 3%nat
      /\ rp_successful_downloads rep = successes (rp_results rep)
      /\ rp_total_videos rep = length (rp_results rep)
      /\ (rp_successful_downloads rep + failures (rp_results rep))%nat
         = rp_total_videos rep
  | inl _ => False
  end.
Proof.
  cbn zeta.
  destruct (download_playlist demo_url None 1%Q
              (demo_start (Some three_entries) [watch "bbbbbbbbbbb"])).2
    as [e|rep] eqn:E.
  { vm_compute in E. discriminate E. }
  destruct (report_counts_when_suspensions_return _ _ _ _ _ E) as (H1 & _ & _ & Hq).
  destruct (Hq (or_introl demo_clock_accepts)) as (H2 & H3).
  concrete E. split_and!; [vm_compute; reflexivity|vm_compute; reflexivity|done..].
Defined.



(** A call that raises (the extractor's answer has no entries) leaves
    the instance as it was, too. *)
Example output_directory_kept_on_error :
  let s := demo_start None [] in
  let out := download_playlist demo_url None 1%Q s in
  out.2 = inl (Exception (py "Playlist download failed: Failed to get playlist info: No videos found in playlist"))
  /\ out.1 = s.
Proof. cbn zeta. split; vm_compute; reflexivity. Qed.

(** C9, as stated, fails: the extractor answers with an empty entry
    list, and [get_playlist_info] returns a descriptor without videos
    instead of failing. *)
Lemma empty_entry_list_is_no_error :
  let s := demo_start (Some []) [] in
  pm_entries (dw_playlist (the_world s)) = Some []
  /\ (get_playlist_info demo_url s).2
     = inr {| pi_title := py "My: Mix"; pi_uploader := py "Unknown";
              pi_video_count := 0; pi_videos := [] |}.
Proof. cbn zeta. split; vm_compute; reflexivity. Qed.

Lemma playlist_info_skips_null_entries_witness :
  let s := demo_start (Some two_entries) [] in
  is_playlist_url demo_url = true
  /\ exists descriptor,
      (get_playlist_info demo_url s).2 = inr descriptor
      /\ v_url <$> pi_videos descriptor = [watch "aaaaaaaaaaa"; watch "bbbbbbbbbbb"]
      /\ pi_video_count descriptor = 2%nat.
Proof.
  cbn zeta.
  assert (Hu : is_playlist_url demo_url = true) by (vm_compute; reflexivity).
  split; [exact Hu|].
  destruct (playlist_info_skips_null_entries demo_url
              (demo_start (Some two_entries) [])
              (the_world (demo_start (Some two_entries) []))
              (demo_playlist (Some two_entries)) Hu eq_refl)
    as (descriptor & E & Hv & Hc).
  exists descriptor. split_and!; [done| |done].
  rewrite Hv. vm_compute. reflexivity.
Defined.

End Demo.

(* ------------------------------------------------------------------ *)
(** * Further properties of the code *)

(** ** File names *)

(** The placeholder at work: white space of three kinds, and the empty
    name. *)
Lemma sanitize_placeholder_witness :
  Forall (fun c => isspace c = true) [32; 9; 0x3000]
  /\ _sanitize_filename [32; 9; 0x3000] = py "Unknown_Playlist"
  /\ _sanitize_filename [] = py "Unknown_Playlist".
Proof.
  assert (H : Forall (fun c => isspace c = true) [32; 9; 0x3000]).
  { repeat constructor. }
  split; [exact H|]. split.
  - exact (sanitize_placeholder _ H).
  - exact (sanitize_placeholder [] (Forall_nil_2 _)).
Defined.

(** A name that needs no repair is returned as it is. *)
Theorem clean_name_is_kept (t : pystr) :
  Forall (fun c => c ∉ invalid_chars) t ->
  (0 < length t <= 100)%nat ->
  (forall c, head t = Some c -> isspace c = false) ->
  (forall c, last t = Some c -> isspace c = false) ->
  _sanitize_filename t = t.
Proof.
  intros Hclean [Hpos Hlen] Hhead Hlast.
  apply sanitize_fixpoint; auto.
  - by destruct t; [cbn in Hpos; lia|].
  - unfold ends_with_space. destruct (last t) as [d|]; auto.
Qed.

Lemma clean_name_is_kept_witness :
  _sanitize_filename (py "My Song (live)") = py "My Song (live)".
Proof.
  apply (clean_name_is_kept (py "My Song (live)")).
  - apply Forall_forall. intros c Hc Hbad. revert Hc Hbad. vm_compute.
    intros Hc Hbad.
    repeat (apply elem_of_cons in Hc as [->|Hc];
            [by repeat (apply elem_of_cons in Hbad as [?|Hbad]; [done|]);
                apply elem_of_nil in Hbad|]).
    by apply elem_of_nil in Hc.
  - vm_compute. lia.
  - intros c [= <-]. reflexivity.
  - intros c [= <-]. reflexivity.
Defined.

(** Every character of a sanitised name that is not the placeholder is
    an underscore or a character of the given name. *)
Theorem sanitized_characters_come_from_the_name (s : pystr) (c : N) :
  _sanitize_filename s <> py "Unknown_Playlist" ->
  c ∈ _sanitize_filename s -> c = 95 \/ c ∈ s.
Proof.
  intros Hne Hc.
  destruct (sanitize_cases s) as [[_ E]|[_ E]]; [done|].
  rewrite E in Hc. apply elem_of_take in Hc as (i & Hc & _).
  apply list_elem_of_lookup_2 in Hc.
  destruct (strip_infix (subst_chars invalid_chars 95 <$> s)) as (a & b & Hab).
  assert (Hin : c ∈ subst_chars invalid_chars 95 <$> s).
  { rewrite Hab. apply elem_of_app. right. apply elem_of_app. by left. }
  apply list_elem_of_fmap in Hin as (x & -> & Hx).
  unfold subst_chars. case_bool_decide; [by left|by right].
Qed.

Lemma sanitized_characters_come_from_the_name_witness :
  _sanitize_filename (py "a:b") = py "a_b" /\ (98 = 95 \/ 98 ∈ py "a:b").
Proof.
  split; [reflexivity|].
  apply (sanitized_characters_come_from_the_name (py "a:b") 98).
  - vm_compute. discriminate.
  - vm_compute. apply list_elem_of_further, list_elem_of_further, list_elem_of_here.
Defined.

(** ** URL patterns *)

Lemma re_fullmatch_spec r s : re_fullmatch r s = true <-> matches r s.
Proof.
  unfold re_fullmatch. revert r. induction s as [|c t IH]; intros r; cbn [foldl].
  - apply nullable_spec.
  - rewrite IH. apply deriv_spec.
Qed.

Lemma matches_chars cs w :
  matches (foldr (fun c r => Cat (Chr c) r) Eps cs) w <-> w = cs.
Proof.
  revert w. induction cs as [|c cs IH]; intros w; cbn [foldr].
  - apply matches_eps.
  - rewrite matches_cat. split.
    + intros (w1 & w2 & -> & H1 & H2). apply IH in H2 as ->.
      inversion H1; subst. done.
    + intros ->. exists [c], cs. split_and!; [done|constructor|by apply IH].
Qed.

Lemma matches_Lit s w : matches (Lit s) w <-> w = py s.
Proof. apply matches_chars. Qed.

Lemma matches_Seq_cons r rs w :
  matches (Seq (r :: rs)) w
  <-> exists w1 w2, w = w1 ++ w2 /\ matches r w1 /\ matches (Seq rs) w2.
Proof. apply matches_cat. Qed.

Lemma matches_Seq_app rs1 rs2 w1 w2 :
  matches (Seq rs1) w1 -> matches (Seq rs2) w2 ->
  matches (Seq (rs1 ++ rs2)) (w1 ++ w2).
Proof.
  revert w1. induction rs1 as [|r rs1 IH]; intros w1 H1 H2.
  - apply matches_eps in H1 as ->. done.
  - apply matches_Seq_cons in H1 as (a & b & -> & Ha & Hb).
    rewrite <- app_assoc. cbn [app]. apply matches_Seq_cons.
    exists a, (b ++ w2). split_and!; [done|done|by apply IH].
Qed.

Lemma matches_star_cls negated ranges w :
  matches (Star (Cls negated ranges)) w
  <-> Forall (fun c => xorb negated (in_ranges c ranges) = true) w.
Proof.
  split.
  - intros H. remember (Star (Cls negated ranges)) as r eqn:Er.
    induction H as [| | | | | | | |r0 s1 s2 H1 _ H2 IH2]; try discriminate.
    + constructor.
    + injection Er as ->. inversion H1; subst. constructor; [done|by apply IH2].
  - induction 1 as [|c w Hc _ IH]; [constructor|].
    change (c :: w) with ([c] ++ w). constructor; [by constructor|done].
Qed.

Lemma matches_plus_cls negated ranges w :
  matches (Plus (Cls negated ranges)) w
  <-> w <> [] /\ Forall (fun c => xorb negated (in_ranges c ranges) = true) w.
Proof.
  unfold Plus. rewrite matches_cat. split.
  - intros (w1 & w2 & -> & H1 & H2). inversion H1; subst.
    apply matches_star_cls in H2. split; [done|]. by constructor.
  - intros [Hne Hall]. destruct w as [|c w]; [done|].
    inversion Hall; subst. exists [c], w.
    split_and!; [done|by constructor|by apply matches_star_cls].
Qed.

Lemma matches_rep_cls negated ranges n w :
  length w = n ->
  Forall (fun c => xorb negated (in_ranges c ranges) = true) w ->
  matches (Rep n (Cls negated ranges)) w.
Proof.
  revert w. induction n as [|n IH]; intros w Hl Hall.
  - destruct w; [constructor|done].
  - destruct w as [|c w]; [done|]. inversion Hall; subst.
    cbn [Rep]. change (c :: w) with ([c] ++ w).
    constructor; [by constructor|]. apply IH; [by injection Hl|done].
Qed.

Lemma matches_list_id w :
  matches list_id w <-> w <> [] /\ Forall (fun c => is_id_char c = true) w.
Proof. apply matches_plus_cls. Qed.

Lemma re_match_app r s rest :
  re_match r s = true -> re_match r (s ++ rest) = true.
Proof.
  rewrite !re_match_spec.
  intros (p & q & -> & H). exists p, (q ++ rest). by rewrite app_assoc.
Qed.

(** The URL check looks at the beginning of the string only: whatever
    follows an accepted URL is accepted with it. *)
Theorem valid_url_ignores_what_follows (url rest : pystr) :
  is_valid_youtube_url url = true ->
  is_valid_youtube_url (url ++ rest) = true.
Proof.
  unfold is_valid_youtube_url. intros H.
  apply re_match_spec in H as (p & q & -> & H).
  apply re_match_spec. exists p, (q ++ rest). by rewrite app_assoc.
Qed.

Lemma valid_url_ignores_what_follows_witness :
  is_valid_youtube_url (py "youtu.be/dQw4w9WgXcQ") = true
  /\ is_valid_youtube_url (py "youtu.be/dQw4w9WgXcQ" ++ py " and more <>") = true.
Proof.
  assert (H : is_valid_youtube_url (py "youtu.be/dQw4w9WgXcQ") = true).
  { vm_compute. reflexivity. }
  split; [exact H|]. exact (valid_url_ignores_what_follows _ _ H).
Defined.

Lemma re_search_context r before s after :
  re_search r s = true -> re_search r (before ++ s ++ after) = true.
Proof.
  rewrite !re_search_spec. intros (a & p & q & -> & H).
  exists (before ++ a), p, (q ++ after). by rewrite <- !app_assoc.
Qed.

(** The playlist test looks for its patterns anywhere in the string: a
    playlist URL stays one inside any text. *)
Theorem playlist_url_inside_any_text (before url after : pystr) :
  is_playlist_url url = true ->
  is_playlist_url (before ++ url ++ after) = true.
Proof.
  unfold is_playlist_url. rewrite !existsb_exists.
  intros (r & Hr & H). exists r. split; [done|]. by apply re_search_context.
Qed.

Lemma playlist_url_inside_any_text_witness :
  is_playlist_url (py "see " ++ demo_url ++ py " for the mix") = true.
Proof.
  apply playlist_url_inside_any_text. vm_compute. reflexivity.
Defined.

(** A [list=] parameter with an identifier character after it makes a
    playlist URL of any string, whatever the host. *)
Theorem list_parameter_makes_a_playlist_url (before after : pystr) (c d : N) :
  in_ranges c (chars "&?") = true ->
  is_id_char d = true ->
  is_playlist_url (before ++ [c] ++ py "list=" ++ [d] ++ after) = true.
Proof.
  intros Hc Hd. unfold is_playlist_url, playlist_patterns.
  cbn [existsb]. apply orb_true_iff. left.
  apply re_search_spec. exists before, ([c] ++ py "list=" ++ [d]), after.
  split; [by rewrite <- !app_assoc|].
  apply matches_Seq_cons. exists [c], (py "list=" ++ [d]).
  split_and!; [done|by constructor|].
  apply matches_Seq_cons. exists (py "list="), ([d] ++ []).
  split_and!; [by rewrite app_nil_r|by apply matches_Lit|].
  apply matches_Seq_cons. exists [d], [].
  split_and!; [done| |constructor].
  apply matches_list_id. split; [done|]. by constructor.
Qed.

Lemma list_parameter_makes_a_playlist_url_witness :
  is_playlist_url (py "https://vimeo.com/album" ++ [ch "?"] ++ py "list="
                   ++ [ch "7"] ++ py "&page=2") = true.
Proof.
  apply list_parameter_makes_a_playlist_url; reflexivity.
Defined.

(** The second pattern adds nothing to the first: the test is decided
    by the [list=] parameter pattern and the watch pattern alone. *)
Theorem second_playlist_pattern_is_redundant (url : pystr) :
  is_playlist_url url
  = re_search list_parameter_pattern url || re_search watch_list_pattern url.
Proof.
  unfold is_playlist_url, playlist_patterns. cbn [existsb].
  change (Seq [Cls false (chars "&?"); Lit "list="; list_id])
    with list_parameter_pattern.
  change (Seq [Lit "youtube.com/watch?"; Star Dot; Lit "list="; list_id])
    with watch_list_pattern.
  rewrite orb_false_r.
  destruct (re_search list_parameter_pattern url) eqn:E1; [done|].
  cbn [orb].
  destruct (re_search (Seq [Lit "youtube.com/playlist?list="; list_id]) url)
    eqn:E2; [|done].
  exfalso. apply re_search_spec in E2 as (a & p & q & -> & H).
  apply matches_Seq_cons in H as (w1 & w2 & -> & H1 & H2).
  apply matches_Lit in H1 as ->.
  apply matches_Seq_cons in H2 as (ids & w3 & -> & Hids & ->%matches_eps).
  assert (re_search list_parameter_pattern
            ((a ++ py "youtube.com/playlist") ++ (py "?list=" ++ ids) ++ q) = true)
    as Hs.
  { apply re_search_spec. exists (a ++ py "youtube.com/playlist"), (py "?list=" ++ ids), q.
    split; [done|].
    apply matches_Seq_cons. exists (py "?"), (py "list=" ++ ids).
    split_and!; [done|by constructor|].
    apply matches_Seq_cons. exists (py "list="), (ids ++ []).
    split_and!; [by rewrite app_nil_r|by apply matches_Lit|].
    apply matches_Seq_cons. exists ids, []. split_and!; [done|done|constructor]. }
  rewrite app_nil_r in E1.
  replace ((a ++ py "youtube.com/playlist") ++ (py "?list=" ++ ids) ++ q)
    with (a ++ (py "youtube.com/playlist?list=" ++ ids) ++ q) in Hs.
  - congruence.
  - rewrite <- !app_assoc. reflexivity.
Qed.

(** The video URL that [get_playlist_info] builds passes the URL check
    of [download_audio] whenever the identifier begins with eleven
    characters outside [&=%?]. *)
Theorem entry_url_passes_the_check (e : entry) :
  (11 <= length (e_id e))%nat ->
  Forall (fun c => is_url_special c = false) (take 11 (e_id e)) ->
  is_valid_youtube_url (v_url (entry_video e)) = true.
Proof.
  intros Hlen Hclean. cbn [entry_video v_url].
  rewrite <- (take_drop 11 (e_id e)), app_assoc.
  unfold is_valid_youtube_url. apply re_match_app, re_match_spec.
  exists (py "https://www.youtube.com/watch?v=" ++ take 11 (e_id e)), [].
  split; [by rewrite app_nil_r|].
  change youtube_regex with
    (Seq ([ Opt (Seq [Lit "http"; Opt (Lit "s"); Lit "://"]);
            Opt (Lit "www.");
            OneOf [Lit "youtube"; Lit "youtu"; Lit "youtube-nocookie"];
            Lit "."; OneOf [Lit "com"; Lit "be"]; Lit "/";
            Opt (OneOf [Lit "watch?v="; Lit "embed/"; Lit "v/";
                        Seq [Plus Dot; Lit "?v="]]) ]
          ++ [Rep 11 (Cls true (chars "&=%?"))])).
  apply matches_Seq_app.
  - apply re_fullmatch_spec. vm_compute. reflexivity.
  - apply matches_Seq_cons. exists (take 11 (e_id e)), [].
    split_and!; [by rewrite app_nil_r| |constructor].
    apply matches_rep_cls.
    + rewrite length_take. lia.
    + eapply Forall_impl; [exact Hclean|]. intros c Hc. cbn beta.
      unfold is_url_special in Hc. by rewrite Hc.
Qed.

(** ** [extract_playlist_id] *)

Lemma starts_with_spec p s :
  starts_with p s = true <-> exists t, s = p ++ t.
Proof.
  revert s. induction p as [|a p IH]; intros s; cbn.
  - split; [by exists s|done].
  - destruct s as [|b s]; [split; [done|by intros (? & ?)]|].
    rewrite andb_true_iff, N.eqb_eq, IH. split.
    + intros (-> & t & ->). by exists t.
    + intros (t & [= -> ->]). eauto.
Qed.

Lemma span_split p s :
  s = span p s ++ drop (length (span p s)) s
  /\ Forall (fun c => p c = true) (span p s)
  /\ (forall d, head (drop (length (span p s)) s) = Some d -> p d = false).
Proof.
  induction s as [|c s (IH1 & IH2 & IH3)]; cbn.
  - split_and!; [done|constructor|done].
  - destruct (p c) eqn:E; cbn.
    + split_and!; [by rewrite <- IH1|by constructor|done].
    + split_and!; [done|constructor|by intros d [= <-]].
Qed.

Lemma span_all p s t :
  Forall (fun c => p c = true) s -> s <> [] -> span p (s ++ t) <> [].
Proof. destruct 1 as [|c s Hc _]; [done|]. intros _. cbn. by rewrite Hc. Qed.

(** the test [search_list_id] makes at one place is the anchored match
    of the pattern *)
Lemma re_match_list_parameter c rest :
  re_match list_parameter_pattern (c :: rest)
  = in_ranges c (chars "&?") && starts_with (py "list=") rest
    && negb (bool_decide (span is_id_char (drop 5 rest) = [])).
Proof.
  apply eq_true_iff_eq. rewrite re_match_spec, !andb_true_iff, negb_true_iff.
  rewrite bool_decide_eq_false, starts_with_spec. split.
  - intros (p & q & E & H).
    apply matches_Seq_cons in H as (w1 & w2 & -> & H1 & H2).
    apply matches_Seq_cons in H2 as (w3 & w4 & -> & ->%matches_Lit & H4).
    apply matches_Seq_cons in H4 as (ids & w5 & -> & Hids & ->%matches_eps).
    apply matches_list_id in Hids as [Hne Hall].
    inversion H1 as [| | |neg cs c0 Hc0| | | | |]; subst. cbn [xorb] in Hc0.
    rewrite app_nil_r, <- !app_assoc in E. injection E as -> ->.
    split_and!; [exact Hc0|by eexists|].
    cbn [drop]. by apply span_all.
  - intros [[Hc (t & ->)] Hne].
    rewrite drop_app_length' in Hne by done.
    destruct (span_split is_id_char t) as (Et & Hall & _).
    exists ([c] ++ py "list=" ++ span is_id_char t),
           (drop (length (span is_id_char t)) t).
    split.
    { rewrite <- !app_assoc. cbn. do 6 f_equal. exact Et. }
    apply matches_Seq_cons. eexists [c], _. split_and!; [done|by constructor|].
    apply matches_Seq_cons. eexists (py "list="), _.
    split_and!; [done|by apply matches_Lit|].
    apply matches_Seq_cons. exists (span is_id_char t), [].
    split_and!; [by rewrite app_nil_r| |constructor].
    by apply matches_list_id.
Qed.

Lemma search_list_id_spec s :
  match search_list_id s with
  | Some id =>
      exists a c b,
        s = a ++ [c] ++ py "list=" ++ id ++ b
        /\ in_ranges c (chars "&?") = true
        /\ id <> [] /\ Forall (fun d => is_id_char d = true) id
        /\ (forall d, head b = Some d -> is_id_char d = false)
        /\ (forall i, (i < length a)%nat ->
              re_match list_parameter_pattern (drop i s) = false)
  | None => re_search list_parameter_pattern s = false
  end.
Proof.
  induction s as [|c rest IH].
  - vm_compute. reflexivity.
  - cbn [search_list_id re_search]. rewrite re_match_list_parameter.
    destruct (in_ranges c (chars "&?") && starts_with (py "list=") rest
              && negb (bool_decide (span is_id_char (drop 5 rest) = []))) eqn:E.
    + apply andb_true_iff in E as [[Hc Hs]%andb_true_iff Hne].
      apply negb_true_iff, bool_decide_eq_false in Hne.
      apply starts_with_spec in Hs as (t & ->).
      rewrite drop_app_length' in * by done.
      destruct (span_split is_id_char t) as (Et & Hall & Hnext).
      exists [], c, (drop (length (span is_id_char t)) t).
      split_and!; try done.
      * cbn. do 6 f_equal. exact Et.
      * intros i Hi. cbn in Hi. lia.
    + cbn [orb]. destruct (search_list_id rest) as [id|]; [|done].
      destruct IH as (a & d & b & -> & Hd & Hne & Hall & Hnext & Hleft).
      exists (c :: a), d, b. split_and!; try done.
      intros [|i] Hi.
      * cbn [drop]. rewrite re_match_list_parameter. exact E.
      * cbn [drop]. apply Hleft. cbn in Hi. lia.
Qed.

(** When the query of the URL holds no [list], the method answers from
    the pattern: [None] exactly when the pattern is nowhere in the URL,
    and otherwise the identifier characters, as many as there are, that
    follow [list=] at the leftmost place where the pattern fits. *)
Theorem playlist_id_from_the_pattern `{UrlLib} (url query : pystr) :
  urlparse_query url = inr query ->
  str_contains (py "list") query = false ->
  match extract_playlist_id url with
  | inr (Some id) =>
      exists a c b,
        url = a ++ [c] ++ py "list=" ++ id ++ b
        /\ in_ranges c (chars "&?") = true
        /\ id <> [] /\ Forall (fun d => is_id_char d = true) id
        /\ (forall d, head b = Some d -> is_id_char d = false)
        /\ (forall i, (i < length a)%nat ->
              re_match list_parameter_pattern (drop i url) = false)
  | inr None => re_search list_parameter_pattern url = false
  | inl _ => False
  end.
Proof.
  intros Hq Hc. unfold extract_playlist_id. rewrite Hq, Hc.
  pose proof (search_list_id_spec url) as Hs.
  by destruct (search_list_id url).
Qed.

Lemma playlist_id_from_the_pattern_witness :
  @extract_playlist_id demo_urllib (py "https://youtu.be/abc#&list=PL_9-x!&list=zz")
  = inr (Some (py "PL_9-x")).
Proof.
  pose proof (@playlist_id_from_the_pattern demo_urllib
                (py "https://youtu.be/abc#&list=PL_9-x!&list=zz") [] eq_refl eq_refl)
    as H.
  destruct (@extract_playlist_id demo_urllib _) as [?|[id|]] eqn:E; [done| |].
  - vm_compute in E. by injection E as <-.
  - vm_compute in E. discriminate E.
Defined.

(** The test on the query is a substring test: a parameter whose name
    merely contains [list] sends the method to the subscript, which
    raises. *)
Example playlist_id_key_error :
  @extract_playlist_id demo_urllib (py "https://www.youtube.com/watch?playlist=abc")
  = inl (KeyError (py "list"))
  /\ @extract_playlist_id demo_urllib (py "https://www.youtube.com/watch?v=x&list=PL1")
     = inr (Some (py "PL1")).
Proof. split; vm_compute; reflexivity. Qed.

(** ** The download of one video *)

Section MoreProgram.
Context `{Env}.

Lemma max_by_spec {A} (f : A -> Z) (x : A) (l : list A) :
  max_by f x l ∈ x :: l
  /\ forall y, y ∈ x :: l -> (f y <= f (max_by f x l))%Z.
Proof.
  unfold max_by. revert x. induction l as [|z l IH]; intros x; cbn [foldl].
  - split; [apply list_elem_of_here|].
    intros y ->%list_elem_of_singleton. lia.
  - destruct (IH (if (f x <? f z)%Z then z else x)) as [Hin Hmax]. split.
    + apply elem_of_cons in Hin as [->|Hin].
      * destruct (f x <? f z)%Z;
          [apply list_elem_of_further, list_elem_of_here|apply list_elem_of_here].
      * by do 2 apply list_elem_of_further.
    + intros y Hy.
      assert (Hstep : (f x <= f (if (f x <? f z)%Z then z else x))%Z
                      /\ (f z <= f (if (f x <? f z)%Z then z else x))%Z).
      { destruct (f x <? f z)%Z eqn:E; lia. }
      destruct Hstep as [Hx Hz].
      apply elem_of_cons in Hy as [->|Hy].
      * etransitivity; [exact Hx|]. apply Hmax, list_elem_of_here.
      * apply elem_of_cons in Hy as [->|Hy].
        -- etransitivity; [exact Hz|]. apply Hmax, list_elem_of_here.
        -- by apply Hmax, list_elem_of_further.
Qed.

(** [download_audio], statement by statement *)
Lemma download_audio_run url name s :
  download_audio url name s
  = let dir := self_output_dir s in
    let s1 := record_event (EvDownload dir url) s in
    if is_valid_youtube_url url then
      match extract_video_info url (the_world s) with
      | (w1, inl e) =>
          (set_world w1 s1,
           inl (Exception (py "Download failed: "
                           ++ (py "Failed to get video info: " ++ exn_str e))))
      | (w1, inr info) =>
          let name := output_base_name (get_or (vm_title info) (py "Unknown")) name in
          match extract_download (current_options s name) url w1 with
          | (w2, inl e) => (set_world w2 s1, inl (download_failure e))
          | (w2, inr _) =>
              let final := joinpath dir (name ++ py ".mp3") in
              if path_exists final w2 then (set_world w2 s1, inr (path_str final))
              else
                match glob dir (py "*.mp3") w2 with
                | f :: rest =>
                    (set_world w2 s1,
                     inr (path_str (max_by (fun p => getctime p w2) f rest)))
                | [] =>
                    (set_world w2 s1,
                     inl (Exception
                            (py "Download failed: "
                             ++ (py "No MP3 file found in " ++ path_str dir
                                 ++ py ". Files present: "
                                 ++ names_repr (glob dir (py "*") w2)))))
                end
          end
      end
    else (s1, inl (ValueError (py "Invalid YouTube URL provided"))).
Proof.
  unfold download_audio, get_video_info, current_options, download_failure.
  unfold try_except, bind, call, ask, gets, modify, ret, raise.
  cbv beta iota zeta.
  destruct (is_valid_youtube_url url); cbn [negb]; [|reflexivity].
  cbn [the_world record_event].
  destruct (extract_video_info url (the_world s)) as [w1 [e|info]];
    cbv beta iota; [reflexivity|].
  cbn [the_world set_world self_ydl_opts vi_title record_event].
  destruct (extract_download _ url w1) as [w2 [e|[]]]; cbv beta iota.
  { destruct e; reflexivity. }
  cbn [the_world set_world].
  destruct (path_exists _ w2); [reflexivity|].
  cbv beta iota. cbn [the_world set_world].
  destruct (glob _ (py "*.mp3") w2); reflexivity.
Qed.

Lemma failure_has_prefix e :
  exists prefix msg,
    prefix ∈ failure_prefixes /\ download_failure e = Exception (prefix ++ msg).
Proof.
  unfold failure_prefixes.
  destruct e as [m|m|m|m]; cbn [download_failure exn_str].
  - exists (py "Download failed: "), m. split; [|done].
    do 2 apply list_elem_of_further. apply list_elem_of_here.
  - exists (py "yt-dlp download error: "), m. split; [|done].
    apply list_elem_of_here.
  - exists (py "File system error (check FFmpeg installation): "), m.
    split; [|done]. apply list_elem_of_further, list_elem_of_here.
  - exists (py "Download failed: "), m. split; [|done].
    do 2 apply list_elem_of_further. apply list_elem_of_here.
Qed.

(** The exceptions of [download_audio]: a URL that fails the check
    gives the [ValueError], raised before the world is consulted; for a
    URL that passes it, every failure leaves the method as a plain
    [Exception] whose message starts with one of the three prefixes of
    the handlers, never as the exception caught. *)
Theorem download_audio_error_kinds url name s :
  match (download_audio url name s).2 with
  | inl e =>
      if is_valid_youtube_url url
      then exists prefix msg,
             prefix ∈ failure_prefixes /\ e = Exception (prefix ++ msg)
      else e = ValueError (py "Invalid YouTube URL provided")
           /\ the_world (download_audio url name s).1 = the_world s
  | inr _ => is_valid_youtube_url url = true
  end.
Proof.
  rewrite download_audio_run. cbv zeta.
  destruct (is_valid_youtube_url url); [|done].
  assert (Hlast : py "Download failed: " ∈ failure_prefixes).
  { do 2 apply list_elem_of_further. apply list_elem_of_here. }
  destruct (extract_video_info url (the_world s)) as [w1 [e|info]]; cbn [snd].
  { by eexists _, _. }
  destruct (extract_download _ url w1) as [w2 [e|[]]]; cbn [snd].
  { apply failure_has_prefix. }
  destruct (path_exists _ w2); [done|].
  destruct (glob _ (py "*.mp3") w2); [|done].
  by eexists _, _.
Qed.

(** A failure of the metadata query, of whatever class, is reported as
    [Download failed: Failed to get video info: ...], and the world is
    left as the query left it: the download is not started. *)
Theorem metadata_failure_stops_the_download url name s w1 e :
  is_valid_youtube_url url = true ->
  extract_video_info url (the_world s) = (w1, inl e) ->
  (download_audio url name s).2
  = inl (Exception (py "Download failed: Failed to get video info: " ++ exn_str e))
  /\ the_world (download_audio url name s).1 = w1.
Proof.
  intros Hv Hx. rewrite download_audio_run. cbv zeta. rewrite Hv, Hx.
  split; [|done]. cbn [snd].
  change (py "Download failed: Failed to get video info: ")
    with (py "Download failed: " ++ py "Failed to get video info: ").
  by rewrite <- app_assoc.
Qed.

(** A call that returns has had both answers of the extractor, the
    download being made with a copy of the instance's options in which
    the template names the base name in the output directory; what it
    returns is the expected file when that exists after the download,
    and otherwise a file of the directory's [*.mp3] listing than which
    none was created later. *)
Theorem download_audio_returns_a_file url name s p :
  (download_audio url name s).2 = inr p ->
  let w := the_world (download_audio url name s).1 in
  let dir := self_output_dir s in
  exists w1 info,
    extract_video_info url (the_world s) = (w1, inr info)
    /\ let base := output_base_name (get_or (vm_title info) (py "Unknown")) name in
       let expected := joinpath dir (base ++ py ".mp3") in
       extract_download (current_options s base) url w1 = (w, inr tt)
       /\ exists f,
           p = path_str f
           /\ (f = expected /\ path_exists expected w = true
               \/ path_exists expected w = false
                  /\ f ∈ glob dir (py "*.mp3") w
                  /\ forall g, g ∈ glob dir (py "*.mp3") w ->
                               (getctime g w <= getctime f w)%Z).
Proof.
  rewrite download_audio_run. cbv zeta.
  destruct (is_valid_youtube_url url); [|done].
  destruct (extract_video_info url (the_world s)) as [w1 [e|info]]; [done|].
  destruct (extract_download _ url w1) as [w2 [e|[]]] eqn:Ed; [done|].
  destruct (path_exists _ w2) eqn:Ep.
  - cbn [fst snd the_world set_world]. intros [= <-].
    exists w1, info. split_and!; [done|done|]. eexists. split; [done|]. by left.
  - destruct (glob _ (py "*.mp3") w2) as [|f rest] eqn:Eg; [done|].
    cbn [fst snd the_world set_world]. intros [= <-].
    exists w1, info. split_and!; [done|done|]. eexists. split; [done|]. right.
    rewrite Eg. split; [done|]. apply (max_by_spec (fun p => getctime p w2)).
Qed.


(** ** The constructor *)

(** the message of the constructor has the 215 characters of the
    source's, the first line and the three hint lines among them *)
Example ffmpeg_message :
  length ffmpeg_not_found = 215%nat
  /\ take 41 ffmpeg_not_found = py "FFmpeg not found. Please install FFmpeg:" ++ [10]
  /\ drop 174 ffmpeg_not_found = [10] ++ py "Make sure FFmpeg is in your system PATH.".
Proof. split_and!; vm_compute; reflexivity. Qed.

Lemma head_filter_split {A} (P : A -> bool) (l : list A) :
  match head (filter (fun x => P x = true) l) with
  | Some x =>
      exists before after,
        l = before ++ x :: after
        /\ Forall (fun y => P y = false) before /\ P x = true
  | None => Forall (fun y => P y = false) l
  end.
Proof.
  induction l as [|a l IH]; [constructor|].
  rewrite filter_cons. destruct (decide (P a = true)) as [Ha|Ha].
  - cbn [head]. by exists [], l.
  - apply not_true_is_false in Ha.
    destruct (head (filter _ l)) as [x|].
    + destruct IH as (before & after & -> & Hb & Hx).
      exists (a :: before), after. split_and!; [done|by constructor|done].
    + by constructor.
Qed.

(** [__init__] makes the output directory first and then looks for
    FFmpeg: the program the search path gives, or else the first of the
    five usual places that exists.  It raises only when making the
    directory raises, or when that went well and FFmpeg is in none of
    these places, and then with the message of lines 55-59 in full; a
    fresh instance has the directory given, and its options name the
    FFmpeg found and refuse playlists. *)
Theorem init_finds_ffmpeg output_dir w :
  match init output_dir w with
  | inr s =>
      exists w1 ffmpeg,
        mkdir (mk_path output_dir) w = (w1, inr tt)
        /\ the_world s = w1
        /\ self_output_dir s = mk_path output_dir
        /\ log s = []
        /\ self_ydl_opts s !! py "ffmpeg_location" = Some (VStr ffmpeg)
        /\ self_ydl_opts s !! py "noplaylist" = Some (VBool true)
        /\ (which (py "ffmpeg") w1 = Some ffmpeg
            \/ which (py "ffmpeg") w1 = None
               /\ exists before after,
                   common_paths = before ++ ffmpeg :: after
                   /\ Forall (fun p => os_path_exists p w1 = false) before
                   /\ os_path_exists ffmpeg w1 = true)
  | inl e =>
      (exists w1, mkdir (mk_path output_dir) w = (w1, inl e))
      \/ exists w1,
          mkdir (mk_path output_dir) w = (w1, inr tt)
          /\ which (py "ffmpeg") w1 = None
          /\ Forall (fun p => os_path_exists p w1 = false) common_paths
          /\ e = Exception ffmpeg_not_found
  end.
Proof.
  unfold init. cbv zeta.
  destruct (mkdir (mk_path output_dir) w) as [w1 [e|[]]]; [left; by exists w1|].
  destruct (which (py "ffmpeg") w1) as [p|] eqn:Ew.
  - exists w1, p. split_and!; try done. by left.
  - pose proof (head_filter_split (fun p => os_path_exists p w1) common_paths) as Hh.
    destruct (head (filter _ common_paths)) as [p|].
    + exists w1, p. split_and!; try done. right. split; [done|]. exact Hh.
    + right. by exists w1.
Qed.

(** ** [download_multiple] *)



(** ** The playlist descriptor *)


(** The exceptions of [get_playlist_info]: the [ValueError] for a URL
    that is no playlist URL, raised with the state untouched, and for a
    playlist URL a plain [Exception] that starts with [Failed to get
    playlist info: ], the missing entry list among them.  The count of
    a descriptor returned is the number of its videos. *)
Theorem playlist_info_error_kinds url s :
  match (get_playlist_info url s).2 with
  | inl e =>
      if is_playlist_url url
      then exists msg, e = Exception (py "Failed to get playlist info: " ++ msg)
      else e = ValueError (py "URL is not a valid YouTube playlist")
           /\ (get_playlist_info url s).1 = s
  | inr info =>
      is_playlist_url url = true /\ pi_video_count info = length (pi_videos info)
  end.
Proof.
  unfold get_playlist_info.
  destruct (is_playlist_url url); cbn [negb]; [|done].
  unfold try_except, bind, call, ret, raise.
  destruct (extract_flat_playlist url (the_world s)) as [w1 [e|info]]; cbn [snd].
  { by eexists. }
  destruct (pm_entries info); cbn [snd]; [done|by eexists].
Qed.

(** ** [download_playlist] *)

Lemma suspensions_without_delay delay total dir i rs :
  is_positive delay = false ->
  suspensions (item_events delay total dir i rs) = [].
Proof.
  intros Hd. revert i. induction rs as [|r rs IH]; intros i; [done|].
  cbn [item_events]. unfold suspensions in *. cbn [omap list_omap].
  rewrite omap_app, IH, Hd, andb_false_r. done.
Qed.

(** With a delay of zero or less the loop never suspends. *)
Theorem no_suspension_without_positive_delay url max_videos delay s :
  is_positive delay = false ->
  suspensions (new_events s (download_playlist url max_videos delay s).1) = [].
Proof.
  intros Hd.
  pose proof (download_playlist_spec url max_videos delay s) as Hs.
  cbn zeta in Hs.
  destruct (download_playlist url max_videos delay s).2 as [e|rep].
  - destruct Hs as (_ & _ & Hl).
    rewrite (new_events_app s _ []); [done|by rewrite app_nil_r].
  - destruct Hs as (_ & _ & _ & _ & _ & _ & st & Hst & _ & _ & Hlog).
    apply new_events_app in Hlog. rewrite Hlog.
    set (videos := limit_videos max_videos (pi_videos (rp_playlist_info rep))) in *.
    destruct (playlist_turns_quiet delay (length videos) videos 1 st (or_intror Hd))
      as (_ & _ & Hev).
    rewrite Hst in Hev. rewrite Hev. by apply suspensions_without_delay.
Qed.

(** A positive limit takes the first [max_videos] videos of the
    descriptor: they are the videos attempted, in order, and the total
    of the report is the smaller of the limit and the number of
    videos; a limit that is not below that number leaves the list
    whole. *)
Theorem playlist_total_is_the_smaller url max_videos delay s rep k :
  (download_playlist url max_videos delay s).2 = inr rep ->
  max_videos = Some k ->
  (0 < k)%Z ->
  let videos := pi_videos (rp_playlist_info rep) in
  let attempted :=
    attempted_urls (new_events s (download_playlist url max_videos delay s).1) in
  attempted = v_url <$> take (Z.to_nat k) videos
  /\ rp_total_videos rep = Nat.min (Z.to_nat k) (length videos)
  /\ ((Z.of_nat (length videos) <= k)%Z -> attempted = v_url <$> videos).
Proof.
  intros Hrep -> Hk. cbv zeta.
  pose proof (download_playlist_spec url (Some k) delay s) as Hs.
  cbn zeta in Hs. rewrite Hrep in Hs.
  destruct Hs as (_ & _ & Htot & _ & _ & _ & st & _ & _ & _ & Hlog).
  apply new_events_app in Hlog.
  rewrite Hlog, attempted_turn_events, playlist_turns_videos, Htot.
  unfold limit_videos.
  assert ((negb (k =? 0) && (0 <? k))%Z = true) as ->.
  { apply andb_true_iff. split; [apply negb_true_iff|]; lia. }
  split_and!; [done|by rewrite length_take|].
  intros Hle. by rewrite take_ge by lia.
Qed.



(** ** The batch loop of the example script *)




End MoreProgram.

(** ** The further properties at concrete runs *)

Lemma entry_url_passes_the_check_witness :
  let e := {| e_id := py "dQw4w9WgXcQ"; e_title := None;
              e_duration := None; e_uploader := None |} in
  v_url (entry_video e) = py "https://www.youtube.com/watch?v=dQw4w9WgXcQ"
  /\ is_valid_youtube_url (v_url (entry_video e)) = true.
Proof.
  cbn zeta. split; [vm_compute; reflexivity|].
  apply entry_url_passes_the_check.
  - vm_compute. lia.
  - vm_compute. repeat constructor.
Defined.

(** An identifier shorter than eleven characters gives a URL that the
    check of [download_audio] refuses. *)
Example short_entry_id_is_refused :
  let e := {| e_id := py "abc"; e_title := None;
              e_duration := None; e_uploader := None |} in
  is_valid_youtube_url (v_url (entry_video e)) = false.
Proof. vm_compute. reflexivity. Qed.

Section MoreDemo.
Local Existing Instance demo_env.

Ltac concrete E :=
  let E' := fresh in
  pose proof E as E'; vm_compute in E'; injection E' as <-.

Lemma metadata_failure_stops_the_download_witness :
  let s := demo_start None [watch "aaaaaaaaaaa"] in
  (download_audio (watch "aaaaaaaaaaa") None s).2
  = inl (Exception (py "Download failed: Failed to get video info: Video unavailable"))
  /\ the_world (download_audio (watch "aaaaaaaaaaa") None s).1 = the_world s.
Proof.
  cbn zeta.
  assert (Hv : is_valid_youtube_url (watch "aaaaaaaaaaa") = true).
  { vm_compute. reflexivity. }
  exact (metadata_failure_stops_the_download (watch "aaaaaaaaaaa") None
           (demo_start None [watch "aaaaaaaaaaa"])
           (the_world (demo_start None [watch "aaaaaaaaaaa"]))
           (DownloadError (py "Video unavailable")) Hv eq_refl).
Defined.

Lemma download_audio_returns_a_file_witness :
  let s := demo_start None [] in
  let out := download_audio (watch "aaaaaaaaaaa") None s in
  out.2 = inr (py "downloads/Song aaaaaaaaaaa.mp3")
  /\ path_exists (py "downloads/Song aaaaaaaaaaa.mp3") (the_world out.1) = true.
Proof.
  cbn zeta.
  assert (E : (download_audio (watch "aaaaaaaaaaa") None (demo_start None [])).2
              = inr (py "downloads/Song aaaaaaaaaaa.mp3")).
  { vm_compute. reflexivity. }
  split; [exact E|].
  destruct (download_audio_returns_a_file _ _ _ _ E)
    as (w1 & info & Hx & Hd & f & Hp & [[Hf He]|[He _]]).
  - vm_compute in Hx. injection Hx as <- <-.
    rewrite <- He. vm_compute. reflexivity.
  - vm_compute in Hx. injection Hx as <- <-.
    vm_compute in He. discriminate He.
Defined.

Lemma no_suspension_without_positive_delay_witness :
  let s := demo_start (Some three_entries) [] in
  is_positive 0%Q = false
  /\ suspensions (new_events s (download_playlist demo_url None 0%Q s).1) = []
  /\ length (attempted_urls (new_events s (download_playlist demo_url None 0%Q s).1))
     = 3%nat.
Proof.
  cbn zeta. split_and!; [reflexivity| |vm_compute; reflexivity].
  apply no_suspension_without_positive_delay. reflexivity.
Defined.

Lemma playlist_total_is_the_smaller_witness :
  let s := demo_start (Some two_entries) [] in
  let out := download_playlist demo_url (Some 5%Z) 1%Q s in
  match out.2 with
  | inr rep =>
      length (pi_videos (rp_playlist_info rep)) = 2%nat
      /\ rp_total_videos rep = 2%nat
      /\ attempted_urls (new_events s out.1)
         = v_url <$> pi_videos (rp_playlist_info rep)
  | inl _ => False
  end.
Proof.
  cbn zeta.
  destruct (download_playlist demo_url (Some 5%Z) 1%Q
              (demo_start (Some two_entries) [])).2 as [e|rep] eqn:E.
  { vm_compute in E. discriminate E. }
  destruct (playlist_total_is_the_smaller _ _ _ _ _ 5%Z E eq_refl eq_refl)
    as (_ & Ht & Hall).
  assert (Hn : length (pi_videos (rp_playlist_info rep)) = 2%nat).
  { concrete E. vm_compute. reflexivity. }
  split_and!; [done|by rewrite Ht, Hn|].
  apply Hall. rewrite Hn. lia.
Defined.



Lemma main_exits_on_unrecognised_url_witness :
  let args := {| a_url := py "https://vimeo.com/12345"; a_output := None;
                 a_directory := py "downloads"; a_playlist := true;
                 a_max_videos := None; a_delay := 1%Q |} in
  main args {| dw_files := []; dw_playlist := demo_playlist None;
               dw_unavailable := [] |} = 1%Z.
Proof.
  cbn zeta.
  eapply main_exits_on_unrecognised_url. vm_compute. reflexivity.
Defined.

(** A playlist of the batch that cannot be fetched does not stop the
    next one. *)
Example batch_goes_on_after_a_failed_playlist :
  let s := demo_start None [] in
  (batch_loop batch_playlists s).2 = inr tt
  /\ (download_playlist (py "https://www.youtube.com/playlist?list=PLAYLIST1")
        (Some 10%Z) 1.5%Q s).2
     = inl (Exception (py "Playlist download failed: Failed to get playlist info: No videos found in playlist")).
Proof. cbn zeta. split; vm_compute; reflexivity. Qed.

End MoreDemo.

Section StrayDemo.
Local Existing Instance stray_env.

(** The converter wrote under a name of its own: the expected file is
    missing, and the call returns the newest MP3 file of the
    directory. *)
Example download_audio_falls_back_to_newest :
  (download_audio (py "https://youtu.be/aaaaaaaaaaa") None stray_start).2
  = inr (py "downloads/converted.mp3")
  /\ path_exists (py "downloads/Unknown.mp3")
       (the_world (download_audio (py "https://youtu.be/aaaaaaaaaaa") None stray_start).1)
     = false.
Proof. split; vm_compute; reflexivity. Qed.

End StrayDemo.
